(** * Headless test evaluation of the Runno playground

    A shallow embedding of the orchestration code of the playground:
    [lib/language-support.ts] (the per-language executor),
    [lib/runno-headless.ts] ([checkCode], [checkCppCode]), the store of
    [stores/runno-store.ts] ([setTestStatus], [setResults],
    [updateProblemProgress], ...) and [runTests] of the right pane.

    JavaScript strings are modelled as [string]; a character stands for
    the UTF-16 code unit of the same number (U+0000 to U+00FF).
    Asynchronous functions are computations over an explicit world: the
    store, the state of the execution engine and a trace of the calls
    that reached the store and the engine. *)

From Stdlib Require Import ZArith Ascii String.
From stdpp Require Import base option list strings pretty gmap.

Local Open Scope string_scope.
Local Open Scope list_scope.

(** ** Strings *)

(** The line feed written ['\n'] in the source. *)
Definition nl : string := String "010"%char "".

(** The double quote. *)
Definition dq : string := String "034"%char "".

(** White space and line terminators of [String.prototype.trim] among the
    code units below 256: TAB, LF, VT, FF, CR, SP and NBSP. *)
Definition is_white_space (c : ascii) : bool :=
  match nat_of_ascii c with
  | 9 | 10 | 11 | 12 | 13 | 32 | 160 => true
  | _ => false
  end%nat.

Fixpoint trimStart (s : string) : string :=
  match s with
  | String c s' => if is_white_space c then trimStart s' else s
  | EmptyString => EmptyString
  end.

(** [trimEnd] drops the white space that is followed by white space only. *)
Fixpoint trimEnd (s : string) : string :=
  match s with
  | String c s' =>
      match trimEnd s' with
      | EmptyString => if is_white_space c then EmptyString else String c EmptyString
      | t => String c t
      end
  | EmptyString => EmptyString
  end.

Definition trim (s : string) : string := trimEnd (trimStart s).

(** [s.includes(sub)] *)
Definition includes (s sub : string) : bool :=
  match String.index 0 sub s with Some _ => true | None => false end.

(** [s.startsWith(p)], used to tell the two reserved source markers apart. *)
Definition startsWith (s p : string) : bool := String.prefix p s.

(** ** Languages ([lib/language-support.ts]) *)

Inductive LanguageKey := python | quickjs | clangpp.

#[global] Instance LanguageKey_eq_dec : EqDecision LanguageKey.
Proof. solve_decision. Defined.

Definition LanguageKey_to_nat (l : LanguageKey) : nat :=
  match l with python => 0 | quickjs => 1 | clangpp => 2 end.

Definition LanguageKey_of_nat (n : nat) : option LanguageKey :=
  match n with
  | 0 => Some python | 1 => Some quickjs | 2 => Some clangpp | _ => None
  end%nat.

#[global] Program Instance LanguageKey_countable : Countable LanguageKey :=
  inj_countable LanguageKey_to_nat LanguageKey_of_nat _.
Next Obligation. by intros []. Qed.

Record LanguageConfig := {
  name : string;
  extension : string;
  runtime : string;
  needsCompilation : bool;
  defaultCode : string
}.

Definition supportedLanguages (language : LanguageKey) : LanguageConfig :=
  match language with
  | python =>
      {| name := "Python"; extension := ".py"; runtime := "python";
         needsCompilation := false;
         defaultCode := "print(" +:+ dq +:+ "Hello, world!" +:+ dq +:+ ")" |}
  | quickjs =>
      {| name := "JavaScript"; extension := ".js"; runtime := "quickjs";
         needsCompilation := false;
         defaultCode := "console.log(" +:+ dq +:+ "Hello, world!" +:+ dq +:+ ")" |}
  | clangpp =>
      {| name := "C++"; extension := ".cpp"; runtime := "clangpp";
         needsCompilation := true;
         defaultCode :=
           "#include <iostream>" +:+ nl +:+ nl +:+ "int main() {" +:+ nl
           +:+ "  std::cout << " +:+ dq +:+ "Hello, world!" +:+ dq
           +:+ " << std::endl;" +:+ nl +:+ "  return 0;" +:+ nl +:+ "}" |}
  end.

(** ** Results of the execution engine ([@runno/runtime]) *)

Record CompleteResult := {
  res_stdin : string;
  stdout : string;
  stderr : string;
  tty : string;
  exitCode : Z
}.

(** The union discriminated by [resultType], with the three variants
    that the code tells apart; the file system of a completed result is
    left out. *)
Inductive RunResult :=
| complete (r : CompleteResult)
| crash (err : string)
| terminated.

(** A call [headlessRunCode(runtime, code, stdin?)]; an omitted [stdin]
    is [None]. *)
Record GatewayCall := {
  call_runtime : LanguageKey;
  call_code : string;
  call_stdin : option string
}.

(** How the promise of a call settles: fulfilled with a result, or
    rejected with an error. *)
Inductive Outcome :=
| Returned (r : RunResult)
| Rejected (e : string).

(** ** The store ([stores/runno-store.ts]) *)

Inductive TestStatus := idle | checking | pass | fail.

#[global] Instance TestStatus_eq_dec : EqDecision TestStatus.
Proof. solve_decision. Defined.

Record TestFeedback := {
  message : string;
  error : option string;
  expected : option string;
  received : option string
}.

Record TestCaseState := {
  tc_id : string;
  tc_description : string;
  tc_stdin : option string;
  tc_expectedOutput : option string;
  tc_status : TestStatus;
  tc_feedback : option TestFeedback;
  tc_result : option RunResult
}.

Record TestCaseTemplate := {
  tpl_description : string;
  tpl_stdin : option string;
  tpl_expectedOutput : option string
}.

Inductive Difficulty := easy | medium | hard.

Record ProblemState := {
  p_id : string;
  p_title : string;
  p_difficulty : Difficulty;
  p_description : string;
  p_starterCode : LanguageKey -> string;
  p_testCases : option (list TestCaseTemplate)
}.

Record LanguageProgress := {
  lp_code : string;
  lp_passed : bool;
  lp_lastAttempted : string
}.

Record UserProblemProgress := {
  problemId : string;
  solved : bool;
  lastAttempted : string;
  languages : gmap LanguageKey LanguageProgress
}.

Record RunnoStore := {
  code : string;
  activeLanguage : LanguageKey;
  testCases : list TestCaseState;
  currentProblem : option ProblemState;
  userProgress : list UserProblemProgress
}.

Definition with_testCases (tcs : list TestCaseState) (state : RunnoStore) : RunnoStore :=
  {| code := code state; activeLanguage := activeLanguage state;
     testCases := tcs; currentProblem := currentProblem state;
     userProgress := userProgress state |}.

Definition with_userProgress (up : list UserProblemProgress) (state : RunnoStore) : RunnoStore :=
  {| code := code state; activeLanguage := activeLanguage state;
     testCases := testCases state; currentProblem := currentProblem state;
     userProgress := up |}.

(** [{ ...tc, status, feedback }] *)
Definition with_status (status : TestStatus) (feedback : option TestFeedback)
    (tc : TestCaseState) : TestCaseState :=
  {| tc_id := tc_id tc; tc_description := tc_description tc;
     tc_stdin := tc_stdin tc; tc_expectedOutput := tc_expectedOutput tc;
     tc_status := status; tc_feedback := feedback; tc_result := tc_result tc |}.

(** [{ ...tc, result }] *)
Definition with_result (result : RunResult) (tc : TestCaseState) : TestCaseState :=
  {| tc_id := tc_id tc; tc_description := tc_description tc;
     tc_stdin := tc_stdin tc; tc_expectedOutput := tc_expectedOutput tc;
     tc_status := tc_status tc; tc_feedback := tc_feedback tc;
     tc_result := Some result |}.

(** The reducers passed to [set] by the store's actions. *)

Definition addTestCase (testCase : TestCaseState) (state : RunnoStore) : RunnoStore :=
  with_testCases (testCases state ++ [with_status idle (tc_feedback testCase) testCase]) state.

Definition setTestStatus (id : string) (status : TestStatus)
    (feedback : option TestFeedback) (state : RunnoStore) : RunnoStore :=
  with_testCases
    (map (fun tc => if decide (tc_id tc = id) then with_status status feedback tc else tc)
         (testCases state))
    state.

Definition setResults (id : string) (result : RunResult) (state : RunnoStore) : RunnoStore :=
  with_testCases
    (map (fun tc => if decide (tc_id tc = id) then with_result result tc else tc)
         (testCases state))
    state.

(** [userProgress.findIndex(p => p.problemId === problemId)] *)
Definition findIndex (problem : string) (up : list UserProblemProgress) : option nat :=
  fst <$> list_find (fun p => problemId p = problem) up.

(** [updateProblemProgress(passed)]; [now] is [new Date().toISOString()]. *)
Definition updateProblemProgress (now : string) (passed : bool)
    (state : RunnoStore) : RunnoStore :=
  match currentProblem state with
  | None => state
  | Some problem =>
      let entry :=
        {| lp_code := code state; lp_passed := passed; lp_lastAttempted := now |} in
      match findIndex (p_id problem) (userProgress state) with
      | Some existingProgressIndex =>
          match userProgress state !! existingProgressIndex with
          | Some oldProgress =>
              with_userProgress
                (<[existingProgressIndex :=
                    {| problemId := problemId oldProgress;
                       solved := solved oldProgress || passed;
                       lastAttempted := now;
                       languages := <[activeLanguage state := entry]> (languages oldProgress) |}]>
                   (userProgress state))
                state
          | None => state
          end
      | None =>
          with_userProgress
            (userProgress state ++
               [{| problemId := p_id problem; solved := passed; lastAttempted := now;
                   languages := {[activeLanguage state := entry]} |}])
            state
      end
  end.

(** [userProgress.find(p => p.problemId === problemId)] *)
Definition getProgressForProblem (problem : string) (state : RunnoStore)
    : option UserProblemProgress :=
  snd <$> list_find (fun p => problemId p = problem) (userProgress state).

Definition getCompletedProblemsCount (state : RunnoStore) : nat :=
  length (filter (fun p => solved p = true) (userProgress state)).

(** [progress?.languages[language]?.code] *)
Definition loadUserCode (problem : string) (language : LanguageKey)
    (state : RunnoStore) : option string :=
  progress ← getProgressForProblem problem state;
  lp_code <$> languages progress !! language.

(** [currentTestCases.every(tc => tc.status === 'pass')] of [runTests] *)
Definition allPassed (currentTestCases : list TestCaseState) : bool :=
  forallb (fun tc => bool_decide (tc_status tc = pass)) currentTestCases.

(** ** The host: execution engine, regular expressions, identifiers, clock *)

(** The regular-expression literals of [checkCode]; in the comments [Q]
    stands for the double quote. *)
Inductive RegExp :=
| re_twoSum_input        (* /nums = \[([\d,]+)\], target = (\d+)/ *)
| re_twoSum_print        (* /print\(twoSum\(\[.*?\], \d+\)\)/g *)
| re_twoSum_log          (* /console\.log\(twoSum\(\[.*?\], \d+\)\)/g *)
| re_twoSum_vector       (* /std::vector<int> nums = \{.*?\};[\s\S]*?int target = \d+;/g *)
| re_isValid_input       (* /s = Q([^Q]+)Q/ *)
| re_isValid_print       (* /print\(isValid\(Q.*?Q\)\)/g *)
| re_isValid_log         (* /console\.log\(isValid\(Q.*?Q\)\)/g *)
| re_isValid_cout.       (* /std::cout << \(isValid\(Q.*?Q\)/g *)

(** What the code takes from its environment. The engine is a state
    machine: a call is answered from the engine's current state, which
    holds for instance the program compiled by an earlier call. *)
Class Host := {
  EngineState : Type;
  engine_run : EngineState -> GatewayCall -> Outcome * EngineState;
  (** [s.match(re)]: the match array (entry 0 is the whole match), or [null] *)
  String_match : RegExp -> string -> option (list string);
  (** [s.replace(re, replacement)] *)
  String_replace : RegExp -> string -> string -> string;
  (** the [n]-th value drawn from [uuidv4()] *)
  uuidv4_at : nat -> string;
  (** [new Date().toISOString()] at the [n]-th draw *)
  toISOString_at : nat -> string
}.

(** What reached the store and the engine, in order. *)
Inductive Event :=
| Call (c : GatewayCall) (o : Outcome)
| SetTestStatus (id : string) (status : TestStatus) (feedback : option TestFeedback)
| SetResults (id : string) (result : RunResult)
| AddTestCase (testCase : TestCaseState)
| UpdateProblemProgress (now : string) (passed : bool).

(** The state of the store after an event. *)
Definition reduce (ev : Event) (state : RunnoStore) : RunnoStore :=
  match ev with
  | Call _ _ => state
  | SetTestStatus id status feedback => setTestStatus id status feedback state
  | SetResults id result => setResults id result state
  | AddTestCase testCase => addTestCase testCase state
  | UpdateProblemProgress now passed => updateProblemProgress now passed state
  end.

Definition replay (evs : list Event) (state : RunnoStore) : RunnoStore :=
  foldl (fun s ev => reduce ev s) state evs.

Record World `{Host} := {
  store : RunnoStore;
  engine : EngineState;
  draws : nat;
  trace : list Event
}.

(** ** Asynchronous computations *)

Inductive Completion (A : Type) :=
| Normal (a : A)
| Thrown (e : string).
Arguments Normal {A} a.
Arguments Thrown {A} e.

Definition Async `{Host} (A : Type) : Type := World -> Completion A * World.

Section Async.
Context `{Host}.

Definition ret {A} (a : A) : Async A := fun w => (Normal a, w).

Definition bind {A B} (m : Async A) (k : A -> Async B) : Async B :=
  fun w =>
    match m w with
    | (Normal a, w') => k a w'
    | (Thrown e, w') => (Thrown e, w')
    end.

(** [try { m } catch (error) { handler error }] *)
Definition try_catch {A} (m : Async A) (handler : string -> Async A) : Async A :=
  fun w =>
    match m w with
    | (Normal a, w') => (Normal a, w')
    | (Thrown e, w') => handler e w'
    end.

(** [try { m } finally { cleanup }] *)
Definition try_finally {A} (m : Async A) (cleanup : Async unit) : Async A :=
  fun w =>
    match m w with
    | (c, w') =>
        match cleanup w' with
        | (Normal _, w'') => (c, w'')
        | (Thrown e, w'') => (Thrown e, w'')
        end
    end.

(** [for (const x of xs) { body x }] *)
Fixpoint for_of {T} (xs : list T) (body : T -> Async unit) : Async unit :=
  match xs with
  | [] => ret tt
  | x :: xs' => bind (body x) (fun _ => for_of xs' body)
  end.

(** [useRunnoStore.getState()] *)
Definition getState : Async RunnoStore := fun w => (Normal (store w), w).

(** A call of a store action: [set] with the action's reducer. *)
Definition dispatch (ev : Event) : Async unit :=
  fun w =>
    (Normal tt,
     {| store := reduce ev (store w); engine := engine w; draws := draws w;
        trace := trace w ++ [ev] |}).

(** [await headlessRunCode(runtime, code, stdin)] *)
Definition headlessRunCode (language : LanguageKey) (source : string)
    (stdin : option string) : Async RunResult :=
  fun w =>
    let c := {| call_runtime := language; call_code := source; call_stdin := stdin |} in
    let '(o, e') := engine_run (engine w) c in
    let w' := {| store := store w; engine := e'; draws := draws w;
                 trace := trace w ++ [Call c o] |} in
    match o with
    | Returned r => (Normal r, w')
    | Rejected e => (Thrown e, w')
    end.

Definition draw {A} (f : nat -> A) : Async A :=
  fun w =>
    (Normal (f (draws w)),
     {| store := store w; engine := engine w; draws := S (draws w);
        trace := trace w |}).

Definition uuidv4 : Async string := draw uuidv4_at.
Definition toISOString : Async string := draw toISOString_at.
End Async.

Notation "'let*' x ':=' m 'in' k" := (bind m (fun x => k))
  (at level 10, x name, m at level 100, k at level 200).
Notation "m ';;' k" := (bind m (fun _ => k))
  (at level 100, k at level 200, right associativity).

(** ** [lib/runno-headless.ts] and [lib/language-support.ts] *)

Definition msg_system_error : string := "There was a system error running your program.".
Definition msg_terminated : string := "Your program was terminated early.".
Definition msg_program_error : string := "Your program had an error.".
Definition msg_mismatch : string := "Your output didn't match what we expected.".
Definition msg_compilation_failed : string := "Compilation failed.".
Definition msg_unexpected : string :=
  "An unexpected error occurred while checking your code.".

(** [{ message }] *)
Definition feedback_of (m : string) : TestFeedback :=
  {| message := m; error := None; expected := None; received := None |}.

(** The markers of the two phases of a compiled language. *)
Definition compile_source (source : string) : string := "//-compile" +:+ nl +:+ source.
Definition run_source (source : string) : string := "//-run" +:+ nl +:+ source.

(** [compileResult.resultType === "complete" && compileResult.exitCode !== 0] *)
Definition complete_nonzero (result : RunResult) : bool :=
  match result with
  | complete r => negb (exitCode r =? 0)%Z
  | _ => false
  end.

(** [testCase.stdin ? testCase.stdin + '\n' : ''] *)
Definition stdin_of (testCase : TestCaseState) : string :=
  match tc_stdin testCase with
  | Some (String _ _ as s) => s +:+ nl
  | _ => ""
  end.

(** [match[i]] inside a template literal *)
Definition group (m : list string) (i : nat) : string := default "undefined" (m !! i).

Section Headless.
Context `{Host}.

(** The part of the loop body under [// Process the result]: the verdict
    on [result] is written to the test case. *)
Definition processResult (testCase : TestCaseState) (result : RunResult) : Async unit :=
  match result with
  | crash _ =>
      dispatch (SetTestStatus (tc_id testCase) fail (Some (feedback_of msg_system_error)))
  | terminated =>
      dispatch (SetTestStatus (tc_id testCase) fail (Some (feedback_of msg_terminated)))
  | complete r =>
      if negb (exitCode r =? 0)%Z then
        dispatch (SetTestStatus (tc_id testCase) fail
                    (Some {| message := msg_program_error; error := Some (tty r);
                             expected := None; received := None |}))
      else
        match tc_expectedOutput testCase with
        | None | Some EmptyString =>
            dispatch (SetTestStatus (tc_id testCase) pass None)
        | Some expectedOutput =>
            if String.eqb (trim (stdout r)) (trim expectedOutput) then
              dispatch (SetTestStatus (tc_id testCase) pass None)
            else
              dispatch (SetTestStatus (tc_id testCase) fail
                          (Some {| message := msg_mismatch; error := None;
                                   expected := Some expectedOutput;
                                   received := Some (stdout r) |}))
        end
  end.

(** The wrapper of the retry of a Python run whose output was [None]. *)
Definition wrappedCode (source : string) : string :=
  nl +:+ "import sys" +:+ nl +:+ "from io import StringIO" +:+ nl +:+ nl
  +:+ "# Capture stdout" +:+ nl +:+ "old_stdout = sys.stdout" +:+ nl
  +:+ "sys.stdout = mystdout = StringIO()" +:+ nl +:+ nl
  +:+ "# Run the user code" +:+ nl +:+ source +:+ nl +:+ nl
  +:+ "# Restore stdout and get the captured output" +:+ nl
  +:+ "sys.stdout = old_stdout" +:+ nl +:+ "print(mystdout.getvalue())" +:+ nl.

(** [getHeadlessExecutor(language)] of the module that imports
    [headlessRunCode]: the executor takes [(code, stdin)]. *)
Definition getHeadlessExecutor (language : LanguageKey)
    : string -> string -> Async RunResult :=
  let needsCompilation := needsCompilation (supportedLanguages language) in
  fun source stdin =>
    if needsCompilation then
      let* compileResult := headlessRunCode language (compile_source source) None in
      if complete_nonzero compileResult then ret compileResult
      else headlessRunCode language (run_source source) None
    else
      let* result := headlessRunCode language source None in
      if bool_decide (language = python)
         && match result with
            | complete r => String.eqb (stdout r) "None"
            | _ => false
            end
         && includes source "print("
      then headlessRunCode language (wrappedCode source) None
      else ret result.

(** The source text run for a test case: the call of the solution is
    rewritten to the input found in the test case's description. *)
Definition codeToRun (source : string) (currentProblem : option ProblemState)
    (activeLanguage : LanguageKey) (testCase : TestCaseState) : string :=
  match currentProblem with
  | None => source
  | Some problem =>
      if String.eqb (p_id problem) "two-sum" then
        match String_match re_twoSum_input (tc_description testCase) with
        | Some m =>
            let numsArray := group m 1 in
            let target := group m 2 in
            match activeLanguage with
            | python =>
                let call := "print(twoSum([" +:+ numsArray +:+ "], " +:+ target +:+ "))" in
                let replaced := String_replace re_twoSum_print source call in
                if negb (includes replaced "print(twoSum(")
                then replaced +:+ nl +:+ nl +:+ call else replaced
            | quickjs =>
                let call :=
                  "console.log(twoSum([" +:+ numsArray +:+ "], " +:+ target +:+ "))" in
                let replaced := String_replace re_twoSum_log source call in
                if negb (includes replaced "console.log(twoSum(")
                then replaced +:+ nl +:+ nl +:+ call else replaced
            | clangpp =>
                String_replace re_twoSum_vector source
                  ("std::vector<int> nums = {" +:+ numsArray +:+ "};" +:+ nl
                   +:+ "    int target = " +:+ target +:+ ";")
            end
        | None => source
        end
      else if String.eqb (p_id problem) "valid-parentheses" then
        match String_match re_isValid_input (tc_description testCase) with
        | Some m =>
            let input := group m 1 in
            match activeLanguage with
            | python =>
                let call := "print(isValid(" +:+ dq +:+ input +:+ dq +:+ "))" in
                let replaced := String_replace re_isValid_print source call in
                if negb (includes replaced "print(isValid(")
                then replaced +:+ nl +:+ nl +:+ call else replaced
            | quickjs =>
                let call := "console.log(isValid(" +:+ dq +:+ input +:+ dq +:+ "))" in
                let replaced := String_replace re_isValid_log source call in
                if negb (includes replaced "console.log(isValid(")
                then replaced +:+ nl +:+ nl +:+ call else replaced
            | clangpp =>
                String_replace re_isValid_cout source
                  ("std::cout << (isValid(" +:+ dq +:+ input +:+ dq +:+ ")")
            end
        | None => source
        end
      else source
  end.

(** One iteration of the loop of [checkCode]. *)
Definition checkCode_case (source : string) (state : RunnoStore)
    (executor : string -> string -> Async RunResult)
    (testCase : TestCaseState) : Async unit :=
  dispatch (SetTestStatus (tc_id testCase) checking None) ;;
  let toRun := codeToRun source (currentProblem state) (activeLanguage state) testCase in
  let stdin := stdin_of testCase in
  let* result := executor toRun stdin in
  dispatch (SetResults (tc_id testCase) result) ;;
  processResult testCase result.

(** The handler of [catch (error)]. *)
Definition fail_all (cases : list TestCaseState) : Async unit :=
  for_of cases (fun testCase =>
    dispatch (SetTestStatus (tc_id testCase) fail (Some (feedback_of msg_unexpected)))).

(** [checkCode(code)], run in the active language of the store. *)
Definition checkCode (source : string) : Async unit :=
  let* state := getState in
  try_catch
    (let executor := getHeadlessExecutor (activeLanguage state) in
     for_of (testCases state) (checkCode_case source state executor))
    (fun _ => fail_all (testCases state)).

(** One iteration of the second loop of [checkCppCode]. *)
Definition checkCppCode_case (source : string) (testCase : TestCaseState) : Async unit :=
  dispatch (SetTestStatus (tc_id testCase) checking None) ;;
  let stdin := stdin_of testCase in
  let* result := headlessRunCode clangpp (run_source source) (Some stdin) in
  dispatch (SetResults (tc_id testCase) result) ;;
  processResult testCase result.

(** The compilation error written to every test case. *)
Definition compilation_feedback (compileResult : RunResult) : TestFeedback :=
  {| message := msg_compilation_failed;
     error :=
       Some match compileResult with
            | complete r =>
                match stderr r with
                | EmptyString => tty r
                | err => err
                end
            | _ => "Compilation process failed"
            end;
     expected := None; received := None |}.

(** The body of [try] in [checkCppCode]; [compile_stdin] is the third
    argument of the compiling call. *)
Definition checkCppCode_body (compile_stdin : option string) (source : string)
    (cases : list TestCaseState) : Async unit :=
  let* compileResult := headlessRunCode clangpp (compile_source source) compile_stdin in
  if complete_nonzero compileResult then
    for_of cases (fun testCase =>
      dispatch (SetTestStatus (tc_id testCase) fail
                  (Some (compilation_feedback compileResult))))
  else
    for_of cases (checkCppCode_case source).

(** [checkCppCode(code)] of the module that imports [headlessRunCode]. *)
Definition checkCppCode (source : string) : Async unit :=
  let* state := getState in
  try_catch (checkCppCode_body None source (testCases state))
            (fun _ => fail_all (testCases state)).

(** [updateProblemProgress(passed)] as called on the store. *)
Definition do_updateProblemProgress (passed : bool) : Async unit :=
  let* now := toISOString in
  dispatch (UpdateProblemProgress now passed).

(** [runTests] of the right pane. [code], [testCases] and
    [currentProblem] are the values of the render in which the handler
    was created: the store when the handler starts. *)
Definition runTests : Async unit :=
  let* rendered := getState in
  (match testCases rendered, currentProblem rendered ≫= p_testCases with
   | [], Some templates =>
       for_of templates (fun testCase =>
         let* id := uuidv4 in
         dispatch (AddTestCase
           {| tc_id := id; tc_description := tpl_description testCase;
              tc_stdin := Some (default "" (tpl_stdin testCase));
              tc_expectedOutput := Some (default "" (tpl_expectedOutput testCase));
              tc_status := idle; tc_feedback := None; tc_result := None |}))
   | [], None =>
       let* id := uuidv4 in
       dispatch (AddTestCase
         {| tc_id := id; tc_description := "Test case 1"; tc_stdin := Some "";
            tc_expectedOutput := Some ""; tc_status := idle; tc_feedback := None;
            tc_result := None |})
   | _ :: _, _ => ret tt
   end) ;;
  try_catch
    (for_of (testCases rendered) (fun testCase =>
       dispatch (SetTestStatus (tc_id testCase) checking None)) ;;
     checkCode (code rendered) ;;
     let* fresh := getState in
     do_updateProblemProgress (allPassed (testCases fresh)))
    (fun _ => ret tt).
End Headless.

(** The variants that run on a hidden [<runno-run>] element. Creating,
    attaching and removing the element are not modelled; the calls of
    [runElement.headlessRunCode] reach the same engine. *)
Module RunElement.
Section RunElement.
Context `{Host}.

(** [getHeadlessExecutor(language)]: the executor takes
    [(runElement, code, stdin)]. *)
Definition getHeadlessExecutor (language : LanguageKey)
    : string -> string -> Async RunResult :=
  let needsCompilation := needsCompilation (supportedLanguages language) in
  fun source stdin =>
    if needsCompilation then
      let* compileResult := headlessRunCode language (compile_source source) (Some "") in
      (* [compileResult.exitCode !== 0]: [exitCode] is [undefined] on a
         result that is not complete *)
      match compileResult with
      | complete r =>
          if negb (exitCode r =? 0)%Z then ret compileResult
          else headlessRunCode language (run_source source) (Some stdin)
      | _ => ret compileResult
      end
    else headlessRunCode language source (Some stdin).

Definition checkCode_case (source : string) (testCase : TestCaseState) : Async unit :=
  dispatch (SetTestStatus (tc_id testCase) checking None) ;;
  let stdin := stdin_of testCase in
  let* result := headlessRunCode python source (Some stdin) in
  dispatch (SetResults (tc_id testCase) result) ;;
  processResult testCase result.

(** [checkCode(code)]: [try { ... } finally { removeChild }] *)
Definition checkCode (source : string) : Async unit :=
  let* state := getState in
  try_finally (for_of (testCases state) (checkCode_case source)) (ret tt).

(** [checkCppCode(code)]: [try { ... } finally { removeChild }] *)
Definition checkCppCode (source : string) : Async unit :=
  let* state := getState in
  try_finally (checkCppCode_body (Some "") source (testCases state)) (ret tt).
End RunElement.
End RunElement.

(** ** Concrete hosts, for running the code *)

(** A host whose engine answers its [n]-th call by [answer n], that finds
    no regular-expression match, and that numbers identifiers and dates. *)
Definition scripted_host (answer : nat -> GatewayCall -> Outcome) : Host :=
  {| EngineState := nat;
     engine_run := fun n c => (answer n c, S n);
     String_match := fun _ _ => None;
     String_replace := fun _ s _ => s;
     uuidv4_at := fun n => "uuid-" +:+ pretty n;
     toISOString_at := fun n => "2025-03-01T00:00:0" +:+ pretty n +:+ ".000Z" |}.

Definition completed (out err : string) (exit : Z) : RunResult :=
  complete {| res_stdin := ""; stdout := out; stderr := err; tty := out +:+ err;
              exitCode := exit |}.

(** A compiler that rejects every program, and runs nothing. *)
Definition answer_compile_error (n : nat) (c : GatewayCall) : Outcome :=
  if startsWith (call_code c) (compile_source "")
  then Returned (completed "" "main.cpp:1:1: error: expected unqualified-id" 1)
  else Returned (completed "ran" "" 0).

(** A compiler that accepts every program; a run echoes its standard
    input, and prints [no input] when it was given none. *)
Definition answer_echo (n : nat) (c : GatewayCall) : Outcome :=
  if startsWith (call_code c) (compile_source "")
  then Returned (completed "" "" 0)
  else Returned (completed (default "no input" (call_stdin c)) "" 0).

(** An engine whose calls are rejected. *)
Definition answer_reject (n : nat) (c : GatewayCall) : Outcome :=
  Rejected "RuntimeError: unreachable".

(** An engine that crashes on every call. *)
Definition answer_crash (n : nat) (c : GatewayCall) : Outcome :=
  Returned (crash "RuntimeError: memory access out of bounds").

(** An engine whose second call is terminated, and whose other calls
    print 5. *)
Definition answer_second_terminated (n : nat) (c : GatewayCall) : Outcome :=
  match n with
  | 1 => Returned terminated
  | _ => Returned (completed ("5" +:+ nl) "" 0)
  end.

(** An engine whose programs end with an error. *)
Definition answer_runtime_error (n : nat) (c : GatewayCall) : Outcome :=
  Returned (completed "" "NameError: name 'x' is not defined" 1).

(** An engine whose programs print 5. *)
Definition answer_five (n : nat) (c : GatewayCall) : Outcome :=
  Returned (completed ("5" +:+ nl) "" 0).

Definition test_case (id description : string) (input output : option string)
    : TestCaseState :=
  {| tc_id := id; tc_description := description; tc_stdin := input;
     tc_expectedOutput := output; tc_status := idle; tc_feedback := None;
     tc_result := None |}.

Definition empty_problem : ProblemState :=
  {| p_id := "empty"; p_title := "Empty"; p_difficulty := easy; p_description := "";
     p_starterCode := fun _ => ""; p_testCases := Some [] |}.

Definition store_of (language : LanguageKey) (cases : list TestCaseState)
    (problem : option ProblemState) : RunnoStore :=
  {| code := "main"; activeLanguage := language; testCases := cases;
     currentProblem := problem; userProgress := [] |}.

Definition world_of `{Host} (e : EngineState) (state : RunnoStore) : World :=
  {| store := state; engine := e; draws := 0; trace := [] |}.

(** Two test cases that feed a number to the program. *)
Definition two_cases : list TestCaseState :=
  [test_case "a" "echo 5" (Some "5") (Some "5");
   test_case "b" "echo 7" (Some "7") (Some "7")].

(** A record of progress: solved in Python. *)
Definition solved_in_python : UserProblemProgress :=
  {| problemId := "empty"; solved := true; lastAttempted := "2025-02-01T00:00:00.000Z";
     languages :=
       {[python := {| lp_code := "pass"; lp_passed := true;
                      lp_lastAttempted := "2025-02-01T00:00:00.000Z" |}]} |}.

(** A store in which the current problem has that record, and C++ is
    the active language. *)
Definition store_with_progress : RunnoStore :=
  {| code := "main"; activeLanguage := clangpp; testCases := two_cases;
     currentProblem := Some empty_problem; userProgress := [solved_in_python] |}.

(** ** Notions used in the statements *)

(** A test case has settled when it passed or failed. *)
Definition settled (status : TestStatus) : Prop := status = pass \/ status = fail.

(** A call in the compile phase: its source starts with the compile marker. *)
Definition is_compile_call (ev : Event) : bool :=
  match ev with
  | Call c _ => startsWith (call_code c) (compile_source "")
  | _ => false
  end.

(** A call in the run phase: its source starts with the run marker. *)
Definition is_run_call (ev : Event) : bool :=
  match ev with
  | Call c _ => startsWith (call_code c) (run_source "")
  | _ => false
  end.

(** The event is not a compile call that did anything but return a
    completed result with an exit code other than 0. *)
Definition compile_failed (ev : Event) : bool :=
  match ev with
  | Call c o =>
      if startsWith (call_code c) (compile_source "") then
        match o with
        | Returned result => complete_nonzero result
        | Rejected _ => false
        end
      else true
  | _ => true
  end.

(** A call whose promise was rejected. *)
Definition is_rejected (ev : Event) : bool :=
  match ev with
  | Call _ (Rejected _) => true
  | _ => false
  end.

(** Events that neither add a test case nor touch the progress: calls of
    the engine and the two actions that rewrite test cases by identifier. *)
Definition rewrites_cases (ev : Event) : bool :=
  match ev with
  | Call _ _ | SetTestStatus _ _ _ | SetResults _ _ => true
  | AddTestCase _ | UpdateProblemProgress _ _ => false
  end.

(** The events of a run from [w] to [w']. *)
Definition new_events `{Host} (w w' : World) : list Event :=
  drop (length (trace w)) (trace w').

(** The world [w] with the engine back in state [e]. *)
Definition restart `{Host} (e : EngineState) (w : World) : World :=
  {| store := store w; engine := e; draws := draws w; trace := trace w |}.

(** The test cases in [current] were reached in list order from
    [initial]: the identifiers are those of [initial], and a test case
    differs from its initial state only if all test cases before it have
    settled. *)
Definition in_list_order (initial current : list TestCaseState) : Prop :=
  tc_id <$> current = tc_id <$> initial
  /\ forall i j a b,
       i < j -> current !! i = Some a -> current !! j = Some b ->
       initial !! j <> Some b -> settled (tc_status a).

(** At most one test case is being checked. *)
Definition at_most_one_checking (current : list TestCaseState) : Prop :=
  forall i j a b,
    current !! i = Some a -> current !! j = Some b ->
    tc_status a = checking -> tc_status b = checking -> i = j.

(** Partial correctness of a computation, with a postcondition for a
    normal completion and one for a thrown error. *)
Definition triple `{Host} {A} (P : World -> Prop) (m : Async A)
    (Q : A -> World -> Prop) (E : string -> World -> Prop) : Prop :=
  forall w, P w ->
    match m w with
    | (Normal a, w') => Q a w'
    | (Thrown e, w') => E e w'
    end.

(** The world after the events [evs] that left the engine in state [e]. *)
Definition after `{Host} (w : World) (e : EngineState) (evs : list Event) : World :=
  {| store := replay evs (store w); engine := e; draws := draws w;
     trace := trace w ++ evs |}.

(** A computation that reads the engine only, and writes test cases by
    identifier only: from two worlds with the engine in the same state it
    completes alike, after the same events. *)
Definition oblivious `{Host} {A} (m : Async A) : Prop :=
  forall w1 w2, engine w1 = engine w2 ->
    exists c e evs,
      forallb rewrites_cases evs = true
      /\ m w1 = (c, after w1 e evs) /\ m w2 = (c, after w2 e evs).

(** The fields of a test case that no action of a check writes. *)
Definition same_case (a b : TestCaseState) : Prop :=
  tc_id a = tc_id b /\ tc_description a = tc_description b
  /\ tc_stdin a = tc_stdin b /\ tc_expectedOutput a = tc_expectedOutput b.

(** The worlds reached from [w0] by events that satisfy [Phi]. *)
Definition runs `{Host} (w0 : World) (Phi : list Event -> Prop) : World -> Prop :=
  fun w => exists e evs, w = after w0 e evs /\ Phi evs.

(** The test case failed with the message of an unexpected error. *)
Definition failed_unexpectedly (tc : TestCaseState) : Prop :=
  tc_status tc = fail /\ tc_feedback tc = Some (feedback_of msg_unexpected).

(** The test case failed for the given reason. *)
Definition failed_because (reason : string) (tc : TestCaseState) : Prop :=
  tc_status tc = fail /\ message <$> tc_feedback tc = Some reason.

(** The test cases before position [k] have settled and those from
    position [j] on are as they were in [initial]. *)
Definition progressed (initial : list TestCaseState) (k j : nat)
    (current : list TestCaseState) : Prop :=
  tc_id <$> current = tc_id <$> initial
  /\ (forall i a, i < k -> current !! i = Some a -> settled (tc_status a))
  /\ (forall i, j <= i -> current !! i = initial !! i).

(** Every state of the store on the way through [evs] was reached in
    list order. *)
Definition always_in_list_order (state : RunnoStore) (evs : list Event) : Prop :=
  forall pre, pre `prefix_of` evs ->
    in_list_order (testCases state) (testCases (replay pre state)).

(** What an event does to one test case. *)
Definition rewrite_case (ev : Event) (tc : TestCaseState) : TestCaseState :=
  match ev with
  | SetTestStatus id status feedback =>
      if decide (tc_id tc = id) then with_status status feedback tc else tc
  | SetResults id result =>
      if decide (tc_id tc = id) then with_result result tc else tc
  | _ => tc
  end.

(** The last status and feedback that [evs] give to the identifier. *)
Fixpoint last_status (evs : list Event) (id : string)
    : option (TestStatus * option TestFeedback) :=
  match evs with
  | [] => None
  | ev :: evs' =>
      match last_status evs' id with
      | Some v => Some v
      | None =>
          match ev with
          | SetTestStatus id' status feedback =>
              if decide (id = id') then Some (status, feedback) else None
          | _ => None
          end
      end
  end.

(** The last result that [evs] give to the identifier. *)
Fixpoint last_result (evs : list Event) (id : string) : option RunResult :=
  match evs with
  | [] => None
  | ev :: evs' =>
      match last_result evs' id with
      | Some r => Some r
      | None =>
          match ev with
          | SetResults id' result => if decide (id = id') then Some result else None
          | _ => None
          end
      end
  end.

(** A test case after the events [evs]. *)
Definition rewritten (evs : list Event) (tc : TestCaseState) : TestCaseState :=
  {| tc_id := tc_id tc; tc_description := tc_description tc;
     tc_stdin := tc_stdin tc; tc_expectedOutput := tc_expectedOutput tc;
     tc_status := match last_status evs (tc_id tc) with
                  | Some v => v.1
                  | None => tc_status tc
                  end;
     tc_feedback := match last_status evs (tc_id tc) with
                    | Some v => v.2
                    | None => tc_feedback tc
                    end;
     tc_result := match last_result evs (tc_id tc) with
                  | Some r => Some r
                  | None => tc_result tc
                  end |}.

(** The body of [checkCode] once the store has been read. *)
Definition checkCode_on `{Host} (source : string) (state : RunnoStore) : Async unit :=
  try_catch
    (let executor := getHeadlessExecutor (activeLanguage state) in
     for_of (testCases state) (checkCode_case source state executor))
    (fun _ => fail_all (testCases state)).

(** ** The other actions of the store *)

(** [a || b] for a string [a] that may be absent: [a] unless it is
    absent or empty. *)
Definition or_else (a : option string) (b : string) : string :=
  match a with
  | Some (String _ _ as s) => s
  | _ => b
  end.

Definition with_code (newCode : string) (state : RunnoStore) : RunnoStore :=
  {| code := newCode; activeLanguage := activeLanguage state;
     testCases := testCases state; currentProblem := currentProblem state;
     userProgress := userProgress state |}.

(** [setCode(code)] *)
Definition setCode (newCode : string) (state : RunnoStore) : RunnoStore :=
  with_code newCode state.

(** [setActiveLanguage(language)]: with a current problem, the code
    becomes the code saved for the language, or else its starter code. *)
Definition setActiveLanguage (language : LanguageKey) (state : RunnoStore) : RunnoStore :=
  match currentProblem state with
  | Some problem =>
      {| code := or_else (loadUserCode (p_id problem) language state)
                         (p_starterCode problem language);
         activeLanguage := language; testCases := testCases state;
         currentProblem := currentProblem state; userProgress := userProgress state |}
  | None =>
      {| code := code state; activeLanguage := language; testCases := testCases state;
         currentProblem := currentProblem state; userProgress := userProgress state |}
  end.

(** The test case made of a template: [{ ...tc, id: uuidv4(), status: 'idle' }]. *)
Definition instantiate (id : string) (template : TestCaseTemplate) : TestCaseState :=
  {| tc_id := id; tc_description := tpl_description template;
     tc_stdin := tpl_stdin template; tc_expectedOutput := tpl_expectedOutput template;
     tc_status := idle; tc_feedback := None; tc_result := None |}.

(** [setCurrentProblem(problem)]; [fresh i] is the value of the [i]-th
    call of [uuidv4()] that the action makes. *)
Definition setCurrentProblem (fresh : nat -> string) (problem : ProblemState)
    (state : RunnoStore) : RunnoStore :=
  {| code := or_else (loadUserCode (p_id problem) (activeLanguage state) state)
                     (p_starterCode problem (activeLanguage state));
     activeLanguage := activeLanguage state;
     testCases :=
       match p_testCases problem with
       | Some templates => imap (fun i template => instantiate (fresh i) template) templates
       | None => []
       end;
     currentProblem := Some problem;
     userProgress := userProgress state |}.

(** [resetToStarterCode()] *)
Definition resetToStarterCode (state : RunnoStore) : RunnoStore :=
  match currentProblem state with
  | None => state
  | Some problem => with_code (p_starterCode problem (activeLanguage state)) state
  end.

(** Whether the progress holds the problem as solved:
    [getProgressForProblem(id)?.solved]. *)
Definition recorded_solved (problem : string) (state : RunnoStore) : bool :=
  match getProgressForProblem problem state with
  | Some progress => solved progress
  | None => false
  end.

(** ** [runCode] of the right pane *)

Section RunCode.
Context `{Host}.

(** [runCode]: the text shown in the output pane. [code] and
    [activeLanguage] are those of the store when the handler starts; the
    executor is called without standard input, which it does not read. *)
Definition runCode : Async string :=
  let* rendered := getState in
  try_catch
    (let executor := getHeadlessExecutor (activeLanguage rendered) in
     let* result := executor (code rendered) "" in
     match result with
     | complete r =>
         ret match stdout r with
             | EmptyString => stderr r
             | out => out
             end
     | _ => ret "Error: Could not complete execution"
     end)
    (fun error => ret ("Error: " +:+ error)).
End RunCode.

(** The calls among the events. *)
Definition calls_of (evs : list Event) : list GatewayCall :=
  omap (fun ev => match ev with Call c _ => Some c | _ => None end) evs.

(** The call that [checkCppCode] makes to compile [source]. *)
Definition compile_call (compile_stdin : option string) (source : string) : GatewayCall :=
  {| call_runtime := clangpp; call_code := compile_source source;
     call_stdin := compile_stdin |}.

(** The call that [checkCppCode] makes to run [source] on a test case. *)
Definition run_call (source : string) (testCase : TestCaseState) : GatewayCall :=
  {| call_runtime := clangpp; call_code := run_source source;
     call_stdin := Some (stdin_of testCase) |}.

(** Events that leave the code, the language, the problem and the
    progress of the store as they are. *)
Definition keeps_session (ev : Event) : bool :=
  match ev with
  | UpdateProblemProgress _ _ => false
  | _ => true
  end.

(** A string of white space. *)
Fixpoint all_white_space (s : string) : bool :=
  match s with
  | EmptyString => true
  | String c s' => is_white_space c && all_white_space s'
  end.

(** An engine whose second call is rejected, and whose other calls
    print 5. *)
Definition answer_second_rejected (n : nat) (c : GatewayCall) : Outcome :=
  match n with
  | 1 => Rejected "RuntimeError: unreachable"
  | _ => Returned (completed ("5" +:+ nl) "" 0)
  end.

(** Two templates of test cases. *)
Definition two_templates : list TestCaseTemplate :=
  [{| tpl_description := "Example 1"; tpl_stdin := Some ""; tpl_expectedOutput := Some "5" |};
   {| tpl_description := "Example 2"; tpl_stdin := None; tpl_expectedOutput := None |}].

(** A problem with these templates. *)
Definition small_problem : ProblemState :=
  {| p_id := "small"; p_title := "Small"; p_difficulty := easy; p_description := "";
     p_starterCode := fun _ => "# your code"; p_testCases := Some two_templates |}.

(** The part of the store that a check reads and does not write. *)
Definition session (state : RunnoStore)
    : string * LanguageKey * option ProblemState * list UserProblemProgress :=
  (code state, activeLanguage state, currentProblem state, userProgress state).

(** [stdout || stderr || ''] of [runCode] *)
Definition output_of (r : CompleteResult) : string :=
  match stdout r with
  | EmptyString => stderr r
  | out => out
  end.

(** A call of the engine for the runtime [language] without standard
    input. *)
Definition bare_call (language : LanguageKey) (c : GatewayCall) : Prop :=
  call_runtime c = language /\ call_stdin c = None.

(** A host whose regular expressions match with the groups [m] and whose
    replacement finds nothing to replace. *)
Definition matching_host (m : list string) : Host :=
  {| EngineState := nat;
     engine_run := fun n c => (answer_echo n c, S n);
     String_match := fun _ _ => Some m;
     String_replace := fun _ s _ => s;
     uuidv4_at := fun n => "uuid-" +:+ pretty n;
     toISOString_at := fun n => "2025-03-01T00:00:0" +:+ pretty n +:+ ".000Z" |}.

Definition two_sum_problem : ProblemState :=
  {| p_id := "two-sum"; p_title := "Two Sum"; p_difficulty := easy;
     p_description := ""; p_starterCode := fun _ => ""; p_testCases := None |}.

Definition valid_parentheses_problem : ProblemState :=
  {| p_id := "valid-parentheses"; p_title := "Valid Parentheses";
     p_difficulty := easy; p_description := ""; p_starterCode := fun _ => "";
     p_testCases := None |}.

(** * Runs on concrete hosts *)

Example trim_examples :
  trim ("  5 " +:+ nl) = "5" /\ trim (nl +:+ "a b") = "a b" /\ trim "   " = ""
  /\ trim ("5" +:+ nl) = trim "5".
Proof. by vm_compute. Qed.

(** Python prints 5 and the test case expects 5: it passes. *)
Example python_expected_output_matches :
  let w := @world_of (scripted_host answer_five) 0
             (store_of python [test_case "a" "prints 5" None (Some "5")] None) in
  let run := @checkCode (scripted_host answer_five) "print(5)" w in
  run.1 = Normal tt
  /\ (fun tc => (tc_status tc, tc_feedback tc)) <$> testCases (store run.2)
     = [(pass, None)].
Proof. by vm_compute. Qed.

(** Python prints 5 and the test case expects 6: it fails, with the
    output as it was received. *)
Example python_expected_output_differs :
  let w := @world_of (scripted_host answer_five) 0
             (store_of python [test_case "a" "prints 6" None (Some "6")] None) in
  let run := @checkCode (scripted_host answer_five) "print(5)" w in
  (fun tc => (tc_status tc, tc_feedback tc)) <$> testCases (store run.2)
  = [(fail, Some {| message := msg_mismatch; error := None; expected := Some "6";
                    received := Some ("5" +:+ nl) |})].
Proof. by vm_compute. Qed.

(** A C++ program that does not compile: [checkCppCode] makes the compile
    call only, and fails both test cases with the compiler's errors. *)
Example cpp_compilation_fails :
  let w := @world_of (scripted_host answer_compile_error) 0
             (store_of clangpp two_cases None) in
  let run := @checkCppCode (scripted_host answer_compile_error) "int main() {" w in
  length (filter (fun ev => is_compile_call ev = true) (trace run.2)) = 1
  /\ length (filter (fun ev => is_run_call ev = true) (trace run.2)) = 0
  /\ (fun tc => (tc_status tc, tc_feedback tc)) <$> testCases (store run.2)
     = replicate 2
         (fail, Some {| message := msg_compilation_failed;
                        error := Some "main.cpp:1:1: error: expected unqualified-id";
                        expected := None; received := None |}).
Proof. by vm_compute. Qed.

(** Three test cases, the run of the second is terminated: the second
    fails, the first and the third pass. *)
Example second_run_terminated :
  let cases := [test_case "a" "first" None (Some "5");
                test_case "b" "second" None (Some "5");
                test_case "c" "third" None (Some "5")] in
  let w := @world_of (scripted_host answer_second_terminated) 0
             (store_of python cases None) in
  let run := @checkCode (scripted_host answer_second_terminated) "print(5)" w in
  (fun tc => (tc_status tc, message <$> tc_feedback tc)) <$> testCases (store run.2)
  = [(pass, None); (fail, Some msg_terminated); (pass, None)].
Proof. by vm_compute. Qed.

(** * Properties *)

(** ** The store's reducers *)

Lemma testCases_setTestStatus id status feedback state :
  testCases (setTestStatus id status feedback state)
  = map (fun tc => if decide (tc_id tc = id) then with_status status feedback tc else tc)
        (testCases state).
Proof. reflexivity. Qed.

Lemma testCases_setResults id result state :
  testCases (setResults id result state)
  = map (fun tc => if decide (tc_id tc = id) then with_result result tc else tc)
        (testCases state).
Proof. reflexivity. Qed.

(** Every test case that carries the identifier is given the status and
    the feedback. *)
Lemma setTestStatus_hit id status feedback state tc :
  tc ∈ testCases (setTestStatus id status feedback state) ->
  tc_id tc = id ->
  tc_status tc = status /\ tc_feedback tc = feedback.
Proof.
  rewrite testCases_setTestStatus, list_elem_of_fmap.
  intros (tc0 & -> & _) Hid. destruct (decide (tc_id tc0 = id)); [done|].
  contradiction.
Qed.

(** ** Aggregation: [allPassed] *)

Lemma allPassed_Forall cases :
  allPassed cases = true <-> Forall (fun tc => tc_status tc = pass) cases.
Proof.
  unfold allPassed. rewrite forallb_forall, Forall_forall.
  split; intros Hall tc Hin.
  - eapply bool_decide_eq_true_1, Hall. by apply list_elem_of_In.
  - apply bool_decide_eq_true_2, Hall. by apply list_elem_of_In.
Qed.

(** ** The verdict on a completed run *)

Section Verdict.
Context `{Host}.

Lemma processResult_clean_exit testCase r w :
  exitCode r = 0%Z ->
  processResult testCase (complete r) w =
    match tc_expectedOutput testCase with
    | None | Some EmptyString => dispatch (SetTestStatus (tc_id testCase) pass None) w
    | Some expectedOutput =>
        if decide (trim (stdout r) = trim expectedOutput)
        then dispatch (SetTestStatus (tc_id testCase) pass None) w
        else dispatch (SetTestStatus (tc_id testCase) fail
               (Some {| message := msg_mismatch; error := None;
                        expected := Some expectedOutput;
                        received := Some (stdout r) |})) w
    end.
Proof.
  intros Hexit. unfold processResult. rewrite Hexit. simpl.
  destruct (tc_expectedOutput testCase) as [[|c e]|]; try reflexivity.
  destruct (String.eqb_spec (trim (stdout r)) (trim (String c e)));
    destruct (decide (trim (stdout r) = trim (String c e))); done.
Qed.

(** The verdict on a run that completed with exit code 0. *)
Lemma processResult_clean_exit_verdict testCase r w tc :
  exitCode r = 0%Z ->
  tc ∈ testCases (store (processResult testCase (complete r) w).2) ->
  tc_id tc = tc_id testCase ->
  (tc_expectedOutput testCase = None \/ tc_expectedOutput testCase = Some "" ->
     tc_status tc = pass)
  /\ (forall expectedOutput,
        tc_expectedOutput testCase = Some expectedOutput -> expectedOutput <> "" ->
        (tc_status tc = pass <-> trim (stdout r) = trim expectedOutput)
        /\ (trim (stdout r) <> trim expectedOutput ->
              tc_status tc = fail
              /\ tc_feedback tc =
                   Some {| message := msg_mismatch; error := None;
                           expected := Some expectedOutput;
                           received := Some (stdout r) |})).
Proof.
  intros Hexit Hin Hid. rewrite processResult_clean_exit in Hin by done.
  split.
  - intros [Hexp | Hexp]; rewrite Hexp in Hin;
      by destruct (setTestStatus_hit _ _ _ _ _ Hin Hid).
  - intros e Hexp Hne. rewrite Hexp in Hin. destruct e as [|c e]; [done|].
    destruct (decide (trim (stdout r) = trim (String c e))) as [Heq|Hneq];
      destruct (setTestStatus_hit _ _ _ _ _ Hin Hid) as [Hst Hfb].
    + split; [by rewrite Hst|]. by intros [].
    + split; [|done]. rewrite Hst. split; [done|]. by intros.
Qed.

(** The verdict on a run that completed with another exit code. *)
Lemma processResult_nonzero_exit_verdict testCase r w tc :
  exitCode r <> 0%Z ->
  tc ∈ testCases (store (processResult testCase (complete r) w).2) ->
  tc_id tc = tc_id testCase ->
  tc_status tc = fail
  /\ tc_feedback tc =
       Some {| message := msg_program_error; error := Some (tty r);
               expected := None; received := None |}.
Proof.
  intros Hexit Hin Hid. unfold processResult in Hin.
  apply Z.eqb_neq in Hexit. rewrite Hexit in Hin. simpl in Hin.
  exact (setTestStatus_hit _ _ _ _ _ Hin Hid).
Qed.

(** An iteration of [checkCode] whose executor returns [result] ends
    with the verdict on [result]. *)
Lemma checkCode_case_returned source state executor testCase w result w1 :
  executor (codeToRun source (currentProblem state) (activeLanguage state) testCase)
           (stdin_of testCase)
           (dispatch (SetTestStatus (tc_id testCase) checking None) w).2
  = (Normal result, w1) ->
  checkCode_case source state executor testCase w
  = processResult testCase result
      (dispatch (SetResults (tc_id testCase) result) w1).2.
Proof.
  intros Hexec. unfold checkCode_case, bind. simpl in *. by rewrite Hexec.
Qed.

(** C6. When the run of a test case in [checkCode] completes with exit
    code 0, the test case passes if it expects nothing (no expected
    output, or the empty one); if it expects an output it passes exactly
    if the trimmed standard output is the trimmed expected output,
    character for character, and otherwise it fails with the expected
    output and the standard output as received. *)
Theorem clean_exit_verdict source state executor testCase w r w1 tc :
  executor (codeToRun source (currentProblem state) (activeLanguage state) testCase)
           (stdin_of testCase)
           (dispatch (SetTestStatus (tc_id testCase) checking None) w).2
  = (Normal (complete r), w1) ->
  exitCode r = 0%Z ->
  tc ∈ testCases (store (checkCode_case source state executor testCase w).2) ->
  tc_id tc = tc_id testCase ->
  (tc_expectedOutput testCase = None \/ tc_expectedOutput testCase = Some "" ->
     tc_status tc = pass)
  /\ (forall expectedOutput,
        tc_expectedOutput testCase = Some expectedOutput -> expectedOutput <> "" ->
        (tc_status tc = pass <-> trim (stdout r) = trim expectedOutput)
        /\ (trim (stdout r) <> trim expectedOutput ->
              tc_status tc = fail
              /\ tc_feedback tc =
                   Some {| message := msg_mismatch; error := None;
                           expected := Some expectedOutput;
                           received := Some (stdout r) |})).
Proof.
  intros Hexec Hexit Hin Hid.
  rewrite (checkCode_case_returned _ _ _ _ _ _ _ Hexec) in Hin.
  by eapply processResult_clean_exit_verdict.
Qed.

(** C7. When the run of a test case in [checkCode] completes with an
    exit code other than 0, the test case fails and its feedback carries
    the terminal transcript, whatever output the test case expects. *)
Theorem nonzero_exit_verdict source state executor testCase w r w1 tc :
  executor (codeToRun source (currentProblem state) (activeLanguage state) testCase)
           (stdin_of testCase)
           (dispatch (SetTestStatus (tc_id testCase) checking None) w).2
  = (Normal (complete r), w1) ->
  exitCode r <> 0%Z ->
  tc ∈ testCases (store (checkCode_case source state executor testCase w).2) ->
  tc_id tc = tc_id testCase ->
  tc_status tc = fail
  /\ tc_feedback tc =
       Some {| message := msg_program_error; error := Some (tty r);
               expected := None; received := None |}.
Proof.
  intros Hexec Hexit Hin Hid.
  rewrite (checkCode_case_returned _ _ _ _ _ _ _ Hexec) in Hin.
  by eapply processResult_nonzero_exit_verdict.
Qed.
End Verdict.

(** ** Progress records *)

Section Progress.
Implicit Types (state : RunnoStore) (up : list UserProblemProgress).

Lemma getProgressForProblem_findIndex pid state :
  getProgressForProblem pid state
  = (i ← findIndex pid (userProgress state); userProgress state !! i).
Proof.
  unfold getProgressForProblem, findIndex.
  destruct (list_find _ _) as [[i p]|] eqn:Hfind; simpl; [|done].
  apply list_find_Some in Hfind. by destruct Hfind as (-> & _).
Qed.

(** The record found for a problem after an update of a problem that
    has a record already. *)
Lemma updateProblemProgress_existing now passed state problem old :
  currentProblem state = Some problem ->
  getProgressForProblem (p_id problem) state = Some old ->
  getProgressForProblem (p_id problem) (updateProblemProgress now passed state)
  = Some {| problemId := problemId old;
            solved := solved old || passed;
            lastAttempted := now;
            languages :=
              <[activeLanguage state :=
                  {| lp_code := code state; lp_passed := passed;
                     lp_lastAttempted := now |}]> (languages old) |}.
Proof.
  intros Hcur Hold. unfold updateProblemProgress. rewrite Hcur.
  unfold getProgressForProblem, findIndex in *.
  destruct (list_find _ (userProgress state)) as [[i p]|] eqn:Hfind; [|done].
  simpl in Hold. injection Hold as ->. simpl.
  apply list_find_Some in Hfind as (Hi & Hp & Hbefore).
  rewrite Hi. simpl.
  match goal with |- snd <$> ?f = Some ?x =>
    assert (f = Some (i, x)) as ->; [|done] end.
  apply list_find_Some. split_and!.
  - apply list_lookup_insert_eq. by eapply lookup_lt_Some.
  - done.
  - intros j y Hj Hlt. rewrite list_lookup_insert_ne in Hj by lia. eauto.
Qed.

(** The record found for a problem after the first update of it. *)
Lemma updateProblemProgress_fresh now passed state problem :
  currentProblem state = Some problem ->
  getProgressForProblem (p_id problem) state = None ->
  getProgressForProblem (p_id problem) (updateProblemProgress now passed state)
  = Some {| problemId := p_id problem; solved := passed; lastAttempted := now;
            languages :=
              {[activeLanguage state :=
                  {| lp_code := code state; lp_passed := passed;
                     lp_lastAttempted := now |}]} |}.
Proof.
  intros Hcur Hnone. unfold updateProblemProgress. rewrite Hcur.
  unfold getProgressForProblem, findIndex in *.
  destruct (list_find _ (userProgress state)) as [[i p]|] eqn:Hfind; [done|].
  simpl. apply list_find_None in Hfind.
  match goal with |- snd <$> ?f = Some ?x =>
    assert (f = Some (length (userProgress state), x)) as ->; [|done] end.
  apply list_find_Some. split_and!.
  - by rewrite lookup_app_r, Nat.sub_diag.
  - done.
  - intros j y Hj Hlt. rewrite lookup_app_l in Hj by done.
    eapply Forall_lookup_1 in Hfind; eauto.
Qed.

(** Records of other problems stay where they are. *)
Lemma updateProblemProgress_others now passed state problem i p :
  currentProblem state = Some problem ->
  problemId p <> p_id problem ->
  userProgress (updateProblemProgress now passed state) !! i = Some p
  <-> userProgress state !! i = Some p.
Proof.
  intros Hcur Hne. unfold updateProblemProgress. rewrite Hcur.
  unfold findIndex.
  destruct (list_find _ (userProgress state)) as [[k q]|] eqn:Hfind; simpl.
  - apply list_find_Some in Hfind as (Hk & Hq & _). rewrite Hk. simpl.
    destruct (decide (k = i)) as [->|Hki].
    + rewrite list_lookup_insert_eq by (by eapply lookup_lt_Some).
      rewrite Hk. split; intros [= <-]; simpl in *; congruence.
    + by rewrite list_lookup_insert_ne.
  - destruct (decide (i < length (userProgress state))) as [Hlt|Hge].
    + by rewrite lookup_app_l.
    + rewrite lookup_app_r by lia.
      rewrite (lookup_ge_None_2 (userProgress state)) by lia.
      destruct (i - length (userProgress state)) as [|n]; simpl.
      * split; [intros [= <-]; simpl in *; congruence | done].
      * by rewrite lookup_nil.
Qed.

(** C9. The update after a submission rewrites, in the record of the
    current problem, the entry of the active language only: the entry
    of every other language is the one the record had (none if there
    was no record), and the records of other problems are unchanged. *)
Theorem updateProblemProgress_merges now passed state problem :
  currentProblem state = Some problem ->
  (forall language, language <> activeLanguage state ->
     (progress ← getProgressForProblem (p_id problem)
                   (updateProblemProgress now passed state);
      languages progress !! language)
     = (progress ← getProgressForProblem (p_id problem) state;
        languages progress !! language))
  /\ (forall i p, problemId p <> p_id problem ->
        userProgress (updateProblemProgress now passed state) !! i = Some p
        <-> userProgress state !! i = Some p).
Proof.
  intros Hcur. split.
  - intros language Hne.
    destruct (getProgressForProblem (p_id problem) state) as [old|] eqn:Hold.
    + rewrite (updateProblemProgress_existing _ _ _ _ _ Hcur Hold). simpl.
      by rewrite lookup_insert_ne.
    + rewrite (updateProblemProgress_fresh _ _ _ _ Hcur Hold). simpl.
      by rewrite lookup_singleton_ne.
  - intros i p Hne. by apply (updateProblemProgress_others _ _ _ problem).
Qed.

(** C10. On a problem that has a record, the update sets [solved] to the
    old [solved] or [passed], so a solved problem stays solved, while
    the entry of the active language takes [passed] as it is. *)
Theorem updateProblemProgress_solved_monotone now passed state problem old :
  currentProblem state = Some problem ->
  getProgressForProblem (p_id problem) state = Some old ->
  exists new,
    getProgressForProblem (p_id problem) (updateProblemProgress now passed state)
    = Some new
    /\ solved new = solved old || passed
    /\ (solved old = true -> solved new = true)
    /\ (lp_passed <$> languages new !! activeLanguage state) = Some passed.
Proof.
  intros Hcur Hold. eexists. split.
  - by apply updateProblemProgress_existing.
  - simpl. split_and!; [done| by intros -> |by rewrite lookup_insert_eq].
Qed.
End Progress.

(** ** Rules for computations *)

Section Rules.
Context `{Host}.

Lemma triple_ret {A} (a : A) (P : World -> Prop) Q E :
  (forall w, P w -> Q a w) -> triple P (ret a) Q E.
Proof. intros HQ w HP. simpl. auto. Qed.

Lemma triple_bind {A B} (m : Async A) (k : A -> Async B) P R Q E :
  triple P m R E -> (forall a, triple (R a) (k a) Q E) -> triple P (bind m k) Q E.
Proof.
  intros Hm Hk w HP. specialize (Hm w HP). unfold bind.
  destruct (m w) as [[a|e] w']; [|done]. by apply Hk.
Qed.

Lemma triple_weaken {A} (m : Async A) (P P' : World -> Prop)
    (Q Q' : A -> World -> Prop) (E E' : string -> World -> Prop) :
  triple P m Q E ->
  (forall w, P' w -> P w) -> (forall a w, Q a w -> Q' a w) ->
  (forall e w, E e w -> E' e w) ->
  triple P' m Q' E'.
Proof.
  intros Hm HP HQ HE w HP'. specialize (Hm w (HP w HP')).
  destruct (m w) as [[a|e] w']; auto.
Qed.

Lemma triple_try_catch {A} (m : Async A) handler P Q R E :
  triple P m Q R -> (forall e, triple (R e) (handler e) Q E) ->
  triple P (try_catch m handler) Q E.
Proof.
  intros Hm Hh w HP. specialize (Hm w HP). unfold try_catch.
  destruct (m w) as [[a|e] w']; [done|]. by apply Hh.
Qed.

Lemma triple_getState (P : World -> Prop) Q E :
  (forall w, P w -> Q (store w) w) -> triple P getState Q E.
Proof. intros HQ w HP. simpl. auto. Qed.

Lemma triple_dispatch ev (P : World -> Prop) Q E :
  (forall w, P w -> Q tt (after w (engine w) [ev])) -> triple P (dispatch ev) Q E.
Proof. intros HQ w HP. apply (HQ w HP). Qed.

Lemma triple_headlessRunCode language source stdin (P : World -> Prop) Q E :
  (forall w o e, P w ->
     engine_run (engine w)
       {| call_runtime := language; call_code := source; call_stdin := stdin |}
     = (o, e) ->
     let w' := after w e
                 [Call {| call_runtime := language; call_code := source;
                          call_stdin := stdin |} o] in
     match o with Returned r => Q r w' | Rejected err => E err w' end) ->
  triple P (headlessRunCode language source stdin) Q E.
Proof.
  intros HQ w HP. unfold headlessRunCode.
  destruct (engine_run _ _) as [o e] eqn:Hrun.
  specialize (HQ w o e HP Hrun). by destruct o.
Qed.

(** The rule of the [for ... of] loop: [I done] holds when the elements
    [done] have been visited. *)
Lemma triple_for_of {T} (xs : list T) (body : T -> Async unit)
    (I : list T -> World -> Prop) E :
  (forall done x rest, xs = done ++ x :: rest ->
     triple (I done) (body x) (fun _ => I (done ++ [x])) E) ->
  triple (I []) (for_of xs body) (fun _ => I xs) E.
Proof.
  intros Hbody.
  cut (forall todo done, xs = done ++ todo ->
         triple (I done) (for_of todo body) (fun _ => I xs) E).
  { intros Hgen. by apply Hgen. }
  induction todo as [|x todo IH]; intros done Hxs.
  - rewrite app_nil_r in Hxs. subst. by apply triple_ret.
  - simpl. eapply triple_bind; [by eapply Hbody|].
    intros []. apply IH. by rewrite <- app_assoc.
Qed.

(** ** Events and worlds *)

Lemma replay_app evs1 evs2 state :
  replay (evs1 ++ evs2) state = replay evs2 (replay evs1 state).
Proof. apply foldl_app. Qed.

Lemma after_nil w : after w (engine w) [] = w.
Proof. destruct w. unfold after. simpl. by rewrite app_nil_r. Qed.

Lemma after_after w e1 evs1 e2 evs2 :
  after (after w e1 evs1) e2 evs2 = after w e2 (evs1 ++ evs2).
Proof. unfold after. simpl. by rewrite replay_app, app_assoc. Qed.

Lemma new_events_after w e evs : new_events w (after w e evs) = evs.
Proof. unfold new_events. simpl. by rewrite drop_app_length. Qed.

Lemma dispatch_after ev w : dispatch ev w = (Normal tt, after w (engine w) [ev]).
Proof. reflexivity. Qed.

(** The verdict is one [setTestStatus] that settles the test case. *)
Lemma processResult_settles testCase result :
  exists status feedback,
    settled status
    /\ forall w, processResult testCase result w
                 = dispatch (SetTestStatus (tc_id testCase) status feedback) w.
Proof.
  unfold processResult, settled.
  destruct result as [r| |]; [|by eauto 6..].
  destruct (negb _); [by eauto 6|].
  destruct (tc_expectedOutput testCase) as [[|c e]|]; [by eauto 6| |by eauto 6].
  destruct (String.eqb _ _); by eauto 6.
Qed.
End Rules.

(** ** Runs as lists of events *)

Section Runs.
Context `{Host}.
Implicit Types (evs : list Event) (w : World).

Lemma replay_snoc evs ev state :
  replay (evs ++ [ev]) state = reduce ev (replay evs state).
Proof. by rewrite replay_app. Qed.

Lemma runs_start w (Phi : list Event -> Prop) : Phi [] -> runs w Phi w.
Proof. intros HPhi. exists (engine w), []. by rewrite after_nil. Qed.

Lemma runs_dispatch w0 (Phi Phi' : list Event -> Prop) ev E :
  (forall evs, Phi evs -> Phi' (evs ++ [ev])) ->
  triple (runs w0 Phi) (dispatch ev) (fun _ => runs w0 Phi') E.
Proof.
  intros Hstep. apply triple_dispatch. intros w (e & evs & -> & HPhi).
  exists e, (evs ++ [ev]). rewrite after_after. auto.
Qed.

Lemma runs_call w0 (Phi : list Event -> Prop) (Q : RunResult -> list Event -> Prop)
    (E : list Event -> Prop) language source stdin :
  let c := {| call_runtime := language; call_code := source; call_stdin := stdin |} in
  (forall evs r, Phi evs -> Q r (evs ++ [Call c (Returned r)])) ->
  (forall evs err, Phi evs -> E (evs ++ [Call c (Rejected err)])) ->
  triple (runs w0 Phi) (headlessRunCode language source stdin)
         (fun r => runs w0 (Q r)) (fun _ => runs w0 E).
Proof.
  intros c HQ HE. apply triple_headlessRunCode.
  intros w o e' (e & evs & -> & HPhi) _. simpl.
  destruct o as [r|err]; eexists e', _; rewrite after_after; eauto.
Qed.

Lemma runs_ret {A} (a : A) w0 (Phi : list Event -> Prop)
    (Q : A -> list Event -> Prop) E :
  (forall evs, Phi evs -> Q a evs) ->
  triple (runs w0 Phi) (ret a) (fun a => runs w0 (Q a)) E.
Proof.
  intros HQ. apply triple_ret. intros w (e & evs & -> & HPhi). exists e, evs. auto.
Qed.

Lemma runs_processResult w0 (Phi Phi' : list Event -> Prop) testCase result E :
  (forall evs status feedback,
     Phi evs ->
     (forall w, processResult testCase result w
                = dispatch (SetTestStatus (tc_id testCase) status feedback) w) ->
     settled status ->
     Phi' (evs ++ [SetTestStatus (tc_id testCase) status feedback])) ->
  triple (runs w0 Phi) (processResult testCase result) (fun _ => runs w0 Phi') E.
Proof.
  intros Hstep.
  destruct (processResult_settles testCase result)
    as (status & feedback & Hset & Heq).
  intros w Hw. rewrite Heq.
  eapply (runs_dispatch w0 Phi Phi'); [|exact Hw].
  intros evs HPhi. by apply Hstep.
Qed.

(** The executor: what holds after a call that returned, and after one
    that was rejected. *)
Lemma runs_getHeadlessExecutor w0 (Phi E : list Event -> Prop) language source stdin :
  (forall evs c r, Phi evs -> Phi (evs ++ [Call c (Returned r)])) ->
  (forall evs c err, Phi evs -> E (evs ++ [Call c (Rejected err)])) ->
  triple (runs w0 Phi) (getHeadlessExecutor language source stdin)
         (fun _ => runs w0 Phi) (fun _ => runs w0 E).
Proof.
  intros Hret Hrej.
  assert (forall l s i, triple (runs w0 Phi) (headlessRunCode l s i)
                          (fun _ => runs w0 Phi) (fun _ => runs w0 E)) as Hrun.
  { intros l s i. apply (runs_call w0 Phi (fun _ => Phi) E); eauto. }
  unfold getHeadlessExecutor.
  destruct (needsCompilation _).
  - eapply triple_bind; [apply Hrun|]. intros compileResult.
    destruct (complete_nonzero _); [by apply triple_ret | apply Hrun].
  - eapply triple_bind; [apply Hrun|]. intros result.
    destruct (_ && _); [apply Hrun | by apply triple_ret].
Qed.

(** *** Identifiers are kept *)

Lemma reduce_ids ev state :
  rewrites_cases ev = true ->
  tc_id <$> testCases (reduce ev state) = tc_id <$> testCases state.
Proof.
  destruct ev; try done; intros _; simpl; rewrite <- list_fmap_compose;
    apply list_fmap_ext; intros i tc _; simpl; by destruct (decide _).
Qed.

Lemma replay_ids evs state :
  forallb rewrites_cases evs = true ->
  tc_id <$> testCases (replay evs state) = tc_id <$> testCases state.
Proof.
  revert state. induction evs as [|ev evs IH]; intros state Hall; [done|].
  simpl in Hall. apply andb_true_iff in Hall as [Hev Hall].
  change (replay (ev :: evs) state) with (replay evs (reduce ev state)).
  by rewrite IH, reduce_ids.
Qed.

Lemma forallb_snoc {T} (f : T -> bool) xs x :
  forallb f (xs ++ [x]) = forallb f xs && f x.
Proof. rewrite forallb_app. simpl. by rewrite andb_true_r. Qed.

Lemma existsb_snoc {T} (f : T -> bool) xs x :
  existsb f (xs ++ [x]) = existsb f xs || f x.
Proof. rewrite existsb_app. simpl. by rewrite orb_false_r. Qed.

Lemma elem_of_setTestStatus tc id status feedback state :
  tc ∈ testCases (setTestStatus id status feedback state) ->
  (tc_id tc = id /\ tc_status tc = status /\ tc_feedback tc = feedback)
  \/ (tc_id tc <> id /\ tc ∈ testCases state).
Proof.
  rewrite testCases_setTestStatus, list_elem_of_fmap. intros (tc0 & -> & Hin).
  destruct (decide (tc_id tc0 = id)); [left | right]; done.
Qed.

Lemma elem_of_setResults tc id result state :
  tc ∈ testCases (setResults id result state) ->
  tc_id tc = id \/ (tc_id tc <> id /\ tc ∈ testCases state).
Proof.
  rewrite testCases_setResults, list_elem_of_fmap. intros (tc0 & -> & Hin).
  destruct (decide (tc_id tc0 = id)); [left | right]; done.
Qed.

(** *** Loops that give every test case the same status *)

Lemma mark_all_spec w0 cases status feedback (Phi : list Event -> Prop) E :
  (forall evs id, Phi evs -> Phi (evs ++ [SetTestStatus id status feedback])) ->
  triple
    (runs w0 Phi)
    (for_of cases (fun testCase =>
       dispatch (SetTestStatus (tc_id testCase) status feedback)))
    (fun _ => runs w0 (fun evs =>
       Phi evs
       /\ forall tc, tc ∈ testCases (replay evs (store w0)) ->
            tc_id tc ∈ (tc_id <$> cases) ->
            tc_status tc = status /\ tc_feedback tc = feedback))
    E.
Proof.
  intros HPhi.
  eapply triple_weaken;
    [apply (triple_for_of cases _
              (fun done => runs w0 (fun evs =>
                 Phi evs
                 /\ forall tc, tc ∈ testCases (replay evs (store w0)) ->
                      tc_id tc ∈ (tc_id <$> done) ->
                      tc_status tc = status /\ tc_feedback tc = feedback)) E)
    | | done | done].
  - intros done x rest _. apply runs_dispatch. intros evs [HP Hdone]. split.
    + by apply HPhi.
    + intros tc. rewrite replay_snoc. simpl. intros Hin Hid.
      apply elem_of_setTestStatus in Hin as [(_ & Hst & Hfb) | [Hne Hin]]; [done|].
      apply Hdone; [done|]. rewrite fmap_app in Hid.
      apply elem_of_app in Hid as [Hid|Hid]; [done|].
      apply list_elem_of_singleton in Hid. done.
  - intros w (e & evs & -> & HP). exists e, evs. split_and!; [done..|].
    intros tc _ Hid. simpl in Hid. by apply elem_of_nil in Hid.
Qed.

(** The handler of [catch]. *)
Lemma fail_all_spec w0 cases (Phi : list Event -> Prop) E :
  (forall evs ev, Phi evs -> rewrites_cases ev = true -> is_compile_call ev = false ->
                  Phi (evs ++ [ev])) ->
  triple
    (runs w0 Phi)
    (fail_all cases)
    (fun _ => runs w0 (fun evs =>
       Phi evs
       /\ forall tc, tc ∈ testCases (replay evs (store w0)) ->
            tc_id tc ∈ (tc_id <$> cases) -> failed_unexpectedly tc))
    E.
Proof. intros HPhi. apply mark_all_spec. intros evs id HP. by apply HPhi. Qed.

(** *** [checkCode] contains the errors of the engine *)

Lemma checkCode_loop_rejections w0 source state :
  triple
    (runs w0 (fun evs => forallb rewrites_cases evs = true
                         /\ existsb is_rejected evs = false))
    (for_of (testCases state)
       (checkCode_case source state (getHeadlessExecutor (activeLanguage state))))
    (fun _ => runs w0 (fun evs => forallb rewrites_cases evs = true
                                 /\ existsb is_rejected evs = false))
    (fun _ => runs w0 (fun evs => forallb rewrites_cases evs = true)).
Proof.
  apply (triple_for_of _ _
           (fun _ => runs w0 (fun evs => forallb rewrites_cases evs = true
                                        /\ existsb is_rejected evs = false))).
  intros done x rest _. unfold checkCode_case.
  eapply triple_bind.
  { apply (runs_dispatch w0 _ (fun evs => forallb rewrites_cases evs = true
                                         /\ existsb is_rejected evs = false)).
    intros evs [Hrw Hrej]. by rewrite forallb_snoc, existsb_snoc, Hrw, Hrej. }
  intros []. eapply triple_bind.
  { apply runs_getHeadlessExecutor.
    - intros evs c r [Hrw Hrej]. by rewrite forallb_snoc, existsb_snoc, Hrw, Hrej.
    - intros evs c err [Hrw Hrej]. by rewrite forallb_snoc, Hrw. }
  intros result. eapply triple_bind.
  { apply (runs_dispatch w0 _ (fun evs => forallb rewrites_cases evs = true
                                         /\ existsb is_rejected evs = false)).
    intros evs [Hrw Hrej]. by rewrite forallb_snoc, existsb_snoc, Hrw, Hrej. }
  intros []. apply runs_processResult. intros evs status feedback [Hrw Hrej] _ _.
  by rewrite forallb_snoc, existsb_snoc, Hrw, Hrej.
Qed.

(** [checkCode] completes normally, whatever the engine does; if a call
    of the engine was rejected, every test case of the store, the one
    in flight among them, has failed with the message of an unexpected
    error. *)
Lemma checkCode_contains_rejections source w :
  exists e evs,
    checkCode source w = (Normal tt, after w e evs)
    /\ (existsb is_rejected evs = true ->
        forall tc, tc ∈ testCases (replay evs (store w)) -> failed_unexpectedly tc).
Proof.
  unfold checkCode, bind. simpl.
  pose proof (checkCode_loop_rejections w source (store w) w) as Hloop.
  unfold try_catch.
  destruct (for_of _ _ w) as [[[]|err] w1].
  - destruct Hloop as (e & evs & -> & Hrw & Hrej); [by apply runs_start|].
    exists e, evs. split; [done|]. by rewrite Hrej.
  - pose proof (fail_all_spec w (testCases (store w))
                  (fun evs => forallb rewrites_cases evs = true)
                  (fun _ _ => False)) as Hfail.
    specialize (Hfail ltac:(by intros evs ev Hrw Hev _; cbv beta in *; rewrite forallb_snoc, Hrw, Hev) w1).
    destruct (fail_all _ w1) as [[[]|err'] w2].
    + destruct Hfail as (e & evs & -> & Hrw & Hall); [by apply Hloop, runs_start|].
      exists e, evs. split; [done|]. intros _ tc Hin. apply Hall; [done|].
      rewrite <- (replay_ids evs) by done. by apply list_elem_of_fmap_2.
    + destruct Hfail. by apply Hloop, runs_start.
Qed.
End Runs.

(** ** Compilation errors *)

Section CompileErrors.
Context `{Host}.
Implicit Types (evs : list Event) (w : World).

Lemma prefix_empty s : String.prefix "" s = true.
Proof. by destruct s. Qed.

Lemma compile_source_is_compile source :
  startsWith (compile_source source) (compile_source "") = true.
Proof. unfold startsWith. simpl. apply prefix_empty. Qed.

Lemma compile_source_not_run source :
  startsWith (compile_source source) (run_source "") = false.
Proof. reflexivity. Qed.

Lemma run_source_not_compile source :
  startsWith (run_source source) (compile_source "") = false.
Proof. reflexivity. Qed.

Lemma dispatch_inj ev1 ev2 w : dispatch ev1 w = dispatch ev2 w -> ev1 = ev2.
Proof.
  unfold dispatch. intros [= _ Htrace]. apply app_inv_head in Htrace. congruence.
Qed.

Lemma processResult_nonzero testCase result w :
  complete_nonzero result = true ->
  exists r,
    result = complete r
    /\ processResult testCase result w
       = dispatch (SetTestStatus (tc_id testCase) fail
                     (Some {| message := msg_program_error; error := Some (tty r);
                              expected := None; received := None |})) w.
Proof.
  destruct result as [r| |]; try done. simpl. intros Hnz. exists r.
  by rewrite Hnz.
Qed.

(** The executor of a compiled language. As long as every compile call
    so far failed to compile, no run call was made, and the result
    returned is that of a failed compilation. *)
Lemma getHeadlessExecutor_short_circuit w0 (Psi : list Event -> Prop)
    language source stdin :
  needsCompilation (supportedLanguages language) = true ->
  (forall evs c o, Psi evs -> Psi (evs ++ [Call c o])) ->
  triple
    (runs w0 (fun evs =>
       forallb rewrites_cases evs = true
       /\ (forallb compile_failed evs = true ->
           forallb (fun ev => negb (is_run_call ev)) evs = true /\ Psi evs)))
    (getHeadlessExecutor language source stdin)
    (fun result => runs w0 (fun evs =>
       forallb rewrites_cases evs = true
       /\ (forallb compile_failed evs = true ->
           forallb (fun ev => negb (is_run_call ev)) evs = true /\ Psi evs
           /\ complete_nonzero result = true)))
    (fun _ => runs w0 (fun evs =>
       forallb rewrites_cases evs = true /\ forallb compile_failed evs = false)).
Proof.
  intros Hneeds HPsi. unfold getHeadlessExecutor. rewrite Hneeds.
  eapply triple_bind.
  { apply (runs_call w0 _
             (fun r evs =>
                forallb rewrites_cases evs = true
                /\ (forallb compile_failed evs = true ->
                    forallb (fun ev => negb (is_run_call ev)) evs = true /\ Psi evs
                    /\ complete_nonzero r = true))
             (fun evs => forallb rewrites_cases evs = true
                         /\ forallb compile_failed evs = false)).
    - intros evs r [Hrw Hcf]. rewrite !forallb_snoc, Hrw. split; [done|].
      cbn [compile_failed is_run_call call_code].
      rewrite compile_source_is_compile, compile_source_not_run.
      rewrite !andb_true_r. intros [Hall Hnz]%andb_true_iff. destruct (Hcf Hall) as [-> HP]. auto.
    - intros evs err [Hrw Hcf]. rewrite !forallb_snoc, Hrw. split; [done|].
      cbn [compile_failed call_code].
      rewrite compile_source_is_compile. apply andb_false_r. }
  intros compileResult. destruct (complete_nonzero compileResult) eqn:Hnz.
  - apply runs_ret. intros evs [Hrw Hcf]. split; [done|]. intros Hall.
    destruct (Hcf Hall) as (? & ? & _). rewrite Hnz. auto.
  - assert (forall evs,
              forallb rewrites_cases evs = true
              /\ (forallb compile_failed evs = true ->
                  forallb (fun ev => negb (is_run_call ev)) evs = true /\ Psi evs
                  /\ complete_nonzero compileResult = true) ->
              forallb compile_failed evs = false) as Hbad.
    { intros evs [_ Hcf]. destruct (forallb compile_failed evs); [|done].
      destruct Hcf as (_ & _ & ?); congruence. }
    apply (runs_call w0 _
             (fun r evs =>
                forallb rewrites_cases evs = true
                /\ (forallb compile_failed evs = true ->
                    forallb (fun ev => negb (is_run_call ev)) evs = true /\ Psi evs
                    /\ complete_nonzero r = true))
             (fun evs => forallb rewrites_cases evs = true
                         /\ forallb compile_failed evs = false)).
    + intros evs r HPhi. pose proof (Hbad evs HPhi) as Hcf. destruct HPhi as [Hrw _].
      rewrite !forallb_snoc, Hrw, Hcf. done.
    + intros evs err HPhi. pose proof (Hbad evs HPhi) as Hcf. destruct HPhi as [Hrw _].
      rewrite !forallb_snoc, Hrw, Hcf. done.
Qed.

Lemma checkCode_loop_short_circuit w0 source state :
  needsCompilation (supportedLanguages (activeLanguage state)) = true ->
  triple
    (runs w0 (fun evs => evs = []))
    (for_of (testCases state)
       (checkCode_case source state (getHeadlessExecutor (activeLanguage state))))
    (fun _ => runs w0 (fun evs =>
       forallb rewrites_cases evs = true
       /\ (forallb compile_failed evs = true ->
           forallb (fun ev => negb (is_run_call ev)) evs = true
           /\ forall tc, tc ∈ testCases (replay evs (store w0)) ->
                tc_id tc ∈ (tc_id <$> testCases state) ->
                failed_because msg_program_error tc)))
    (fun _ => runs w0 (fun evs =>
       forallb rewrites_cases evs = true /\ forallb compile_failed evs = false)).
Proof.
  intros Hneeds.
  pose (Phi := fun (done : list TestCaseState) (skip : option string) evs =>
    forallb rewrites_cases evs = true
    /\ (forallb compile_failed evs = true ->
        forallb (fun ev => negb (is_run_call ev)) evs = true
        /\ forall tc, tc ∈ testCases (replay evs (store w0)) ->
             tc_id tc ∈ (tc_id <$> done) -> Some (tc_id tc) <> skip ->
             failed_because msg_program_error tc)).
  eapply triple_weaken;
    [apply (triple_for_of _ _ (fun done => runs w0 (Phi done None))
              (fun _ => runs w0 (fun evs =>
                 forallb rewrites_cases evs = true
                 /\ forallb compile_failed evs = false)))
    | | | done].
  2: { intros w (e & evs & -> & ->). exists e, []. split; [done|]. split; [done|].
       intros _. split; [done|]. intros tc _ Hin. by apply elem_of_nil in Hin. }
  2: { intros [] w (e & evs & -> & Hrw & Hcf). exists e, evs. split; [done|].
       split; [done|]. intros Hall. destruct (Hcf Hall) as [Hnr Hdone].
       split; [done|]. intros tc Hin Hid. by apply Hdone. }
  intros done x rest _. unfold checkCode_case.
  eapply triple_bind.
  { apply (runs_dispatch w0 _ (Phi done (Some (tc_id x)))).
    intros evs [Hrw Hcf]. split; [by rewrite forallb_snoc, Hrw|].
    rewrite !forallb_snoc, !andb_true_r. intros Hall.
    destruct (Hcf Hall) as [Hnr Hdone]. split; [done|].
    intros tc. rewrite replay_snoc. simpl. intros Hin Hid Hskip.
    apply elem_of_setTestStatus in Hin as [(Heq & _) | [Hne Hin]]; [congruence|].
    by apply Hdone. }
  intros []. eapply triple_bind.
  { apply (getHeadlessExecutor_short_circuit w0
             (fun evs => forall tc, tc ∈ testCases (replay evs (store w0)) ->
                tc_id tc ∈ (tc_id <$> done) -> Some (tc_id tc) <> Some (tc_id x) ->
                failed_because msg_program_error tc)); [done|].
    intros evs c o HPsi tc. rewrite replay_snoc. apply HPsi. }
  intros result. eapply triple_bind.
  { apply (runs_dispatch w0 _ (fun evs =>
       forallb rewrites_cases evs = true
       /\ (forallb compile_failed evs = true ->
           forallb (fun ev => negb (is_run_call ev)) evs = true
           /\ (forall tc, tc ∈ testCases (replay evs (store w0)) ->
                 tc_id tc ∈ (tc_id <$> done) -> Some (tc_id tc) <> Some (tc_id x) ->
                 failed_because msg_program_error tc)
           /\ complete_nonzero result = true))).
    intros evs [Hrw Hcf]. split; [by rewrite forallb_snoc, Hrw|].
    rewrite !forallb_snoc, !andb_true_r. intros Hall.
    destruct (Hcf Hall) as (Hnr & Hdone & Hnz). split_and!; [done| |done].
    intros tc. rewrite replay_snoc. simpl. intros Hin Hid Hskip.
    apply elem_of_setResults in Hin as [Heq | [Hne Hin]]; [congruence|].
    by apply Hdone. }
  intros []. apply runs_processResult.
  intros evs status feedback [Hrw Hcf] Heq Hset.
  split; [by rewrite forallb_snoc, Hrw|].
  rewrite !forallb_snoc, !andb_true_r. intros Hall.
  destruct (Hcf Hall) as (Hnr & Hdone & Hnz). split; [done|].
  destruct (processResult_nonzero x result w0 Hnz) as (r & -> & Hfail).
  rewrite Heq in Hfail. apply dispatch_inj in Hfail. injection Hfail as -> ->.
  intros tc. rewrite replay_snoc. simpl. intros Hin Hid _.
  apply elem_of_setTestStatus in Hin as [(_ & Hst & Hfb) | [Hne Hin]].
  { split; [done|]. by rewrite Hfb. }
  apply Hdone; [done| |congruence].
  rewrite fmap_app in Hid. apply elem_of_app in Hid as [Hid|Hid]; [done|].
  apply list_elem_of_singleton in Hid. done.
Qed.
Lemma checkCode_short_circuit source w :
  needsCompilation (supportedLanguages (activeLanguage (store w))) = true ->
  exists c e evs,
    checkCode source w = (c, after w e evs)
    /\ (forallb compile_failed evs = true ->
        forallb (fun ev => negb (is_run_call ev)) evs = true
        /\ forall tc, tc ∈ testCases (replay evs (store w)) ->
             failed_because msg_program_error tc).
Proof.
  intros Hneeds. unfold checkCode, bind. simpl.
  pose proof (checkCode_loop_short_circuit w source (store w) Hneeds w
                (runs_start w _ eq_refl)) as Hloop.
  unfold try_catch. destruct (for_of _ _ w) as [[[]|err] w1].
  - destruct Hloop as (e & evs & -> & Hrw & Hcf).
    exists (Normal tt), e, evs. split; [done|]. intros Hall.
    destruct (Hcf Hall) as [Hnr Hdone]. split; [done|]. intros tc Hin.
    apply Hdone; [done|]. rewrite <- (replay_ids evs) by done.
    by apply list_elem_of_fmap_2.
  - pose proof (fail_all_spec w (testCases (store w))
                  (fun evs => forallb compile_failed evs = false)
                  (fun _ _ => False)) as Hfail.
    specialize (Hfail ltac:(by intros evs ev Hcf _ _; cbv beta in *; rewrite forallb_snoc, Hcf) w1).
    destruct (fail_all _ w1) as [[[]|err'] w2].
    + destruct Hfail as (e & evs & -> & Hcf & _).
      { destruct Hloop as (e & evs & -> & _ & Hcf). by exists e, evs. }
      exists (Normal tt), e, evs. split; [done|]. by rewrite Hcf.
    + destruct Hfail. destruct Hloop as (e & evs & -> & _ & Hcf). by exists e, evs.
Qed.

(** The loop of [checkCppCode] that runs the test cases starts after a
    compile call that did not fail, and ends or throws with that call
    in the events. *)
Lemma checkCppCode_loop_spec w0 source cases :
  triple
    (runs w0 (fun evs => forallb rewrites_cases evs = true
                         /\ forallb compile_failed evs = false))
    (for_of cases (checkCppCode_case source))
    (fun _ => runs w0 (fun evs => forallb rewrites_cases evs = true
                                 /\ forallb compile_failed evs = false))
    (fun _ => runs w0 (fun evs => forallb rewrites_cases evs = true
                                 /\ forallb compile_failed evs = false)).
Proof.
  apply (triple_for_of _ _
           (fun _ => runs w0 (fun evs => forallb rewrites_cases evs = true
                                        /\ forallb compile_failed evs = false))).
  intros done x rest _. unfold checkCppCode_case.
  eapply triple_bind.
  { apply (runs_dispatch w0 _ (fun evs => forallb rewrites_cases evs = true
                                         /\ forallb compile_failed evs = false)).
    intros evs [Hrw Hcf]. by rewrite !forallb_snoc, Hrw, Hcf. }
  intros []. eapply triple_bind.
  { apply (runs_call w0 _
             (fun _ evs => forallb rewrites_cases evs = true
                           /\ forallb compile_failed evs = false)
             (fun evs => forallb rewrites_cases evs = true
                         /\ forallb compile_failed evs = false)).
    - intros evs r [Hrw Hcf]. by rewrite !forallb_snoc, Hrw, Hcf.
    - intros evs err [Hrw Hcf]. by rewrite !forallb_snoc, Hrw, Hcf. }
  intros result. eapply triple_bind.
  { apply (runs_dispatch w0 _ (fun evs => forallb rewrites_cases evs = true
                                         /\ forallb compile_failed evs = false)).
    intros evs [Hrw Hcf]. by rewrite !forallb_snoc, Hrw, Hcf. }
  intros []. apply runs_processResult. intros evs status feedback [Hrw Hcf] _ _.
  by rewrite !forallb_snoc, Hrw, Hcf.
Qed.

Lemma checkCppCode_body_spec w0 compile_stdin source cases :
  triple
    (runs w0 (fun evs => evs = []))
    (checkCppCode_body compile_stdin source cases)
    (fun _ => runs w0 (fun evs =>
       forallb rewrites_cases evs = true
       /\ (forallb compile_failed evs = true ->
           forallb (fun ev => negb (is_run_call ev)) evs = true
           /\ exists feedback,
                message feedback = msg_compilation_failed
                /\ forall tc, tc ∈ testCases (replay evs (store w0)) ->
                     tc_id tc ∈ (tc_id <$> cases) ->
                     tc_status tc = fail /\ tc_feedback tc = Some feedback)))
    (fun _ => runs w0 (fun evs =>
       forallb rewrites_cases evs = true /\ forallb compile_failed evs = false)).
Proof.
  unfold checkCppCode_body. eapply triple_bind.
  { apply (runs_call w0 _
             (fun r evs =>
                forallb rewrites_cases evs = true
                /\ forallb (fun ev => negb (is_run_call ev)) evs = true
                /\ forallb compile_failed evs = complete_nonzero r)
             (fun evs => forallb rewrites_cases evs = true
                         /\ forallb compile_failed evs = false)).
    - intros evs r ->.
      cbn [app forallb compile_failed is_run_call rewrites_cases call_code].
      rewrite compile_source_is_compile, compile_source_not_run.
      by rewrite !andb_true_r.
    - intros evs err ->.
      cbn [app forallb compile_failed rewrites_cases call_code].
      by rewrite compile_source_is_compile. }
  intros compileResult. destruct (complete_nonzero compileResult) eqn:Hnz.
  - eapply triple_weaken;
      [apply (mark_all_spec w0 cases fail (Some (compilation_feedback compileResult))
                (fun evs =>
                   forallb rewrites_cases evs = true
                   /\ forallb (fun ev => negb (is_run_call ev)) evs = true
                   /\ forallb compile_failed evs = complete_nonzero compileResult)
                (fun _ => runs w0 (fun evs =>
                   forallb rewrites_cases evs = true
                   /\ forallb compile_failed evs = false)))
      | done | | done].
    + intros evs id (Hrw & Hnr & Hcf). rewrite !forallb_snoc, Hrw, Hnr, Hcf.
      cbn [rewrites_cases is_run_call compile_failed negb].
      by rewrite !andb_true_r.
    + intros [] w (e & evs & -> & (Hrw & Hnr & Hcf) & Hall). exists e, evs.
      split; [done|]. split; [done|]. intros _. split; [done|].
      by exists (compilation_feedback compileResult).
  - eapply triple_weaken; [apply (checkCppCode_loop_spec w0) | | | done].
    + intros w (e & evs & -> & Hrw & _ & Hcf). exists e, evs.
      by rewrite <- Hnz.
    + intros [] w (e & evs & -> & Hrw & Hcf). exists e, evs.
      split; [done|]. split; [done|]. by rewrite Hcf.
Qed.

Lemma checkCppCode_short_circuit source w :
  exists c e evs,
    checkCppCode source w = (c, after w e evs)
    /\ (forallb compile_failed evs = true ->
        forallb (fun ev => negb (is_run_call ev)) evs = true
        /\ forall tc, tc ∈ testCases (replay evs (store w)) ->
             failed_because msg_compilation_failed tc).
Proof.
  unfold checkCppCode, bind. simpl.
  pose proof (checkCppCode_body_spec w None source (testCases (store w)) w
                (runs_start w _ eq_refl)) as Hbody.
  unfold try_catch. destruct (checkCppCode_body _ _ _ w) as [[[]|err] w1].
  - destruct Hbody as (e & evs & -> & Hrw & Hcf).
    exists (Normal tt), e, evs. split; [done|]. intros Hall.
    destruct (Hcf Hall) as (Hnr & feedback & Hmsg & Hdone). split; [done|].
    intros tc Hin. destruct (Hdone tc Hin) as [Hst Hfb].
    { rewrite <- (replay_ids evs) by done. by apply list_elem_of_fmap_2. }
    split; [done|]. by rewrite Hfb, <- Hmsg.
  - pose proof (fail_all_spec w (testCases (store w))
                  (fun evs => forallb compile_failed evs = false)
                  (fun _ _ => False)) as Hfail.
    specialize (Hfail ltac:(by intros evs ev Hcf _ _; cbv beta in *; rewrite forallb_snoc, Hcf) w1).
    destruct (fail_all _ w1) as [[[]|err'] w2].
    + destruct Hfail as (e & evs & -> & Hcf & _).
      { destruct Hbody as (e & evs & -> & _ & Hcf). by exists e, evs. }
      exists (Normal tt), e, evs. split; [done|]. by rewrite Hcf.
    + destruct Hfail. destruct Hbody as (e & evs & -> & _ & Hcf). by exists e, evs.
Qed.

Lemma RunElement_checkCppCode_short_circuit source w :
  exists c e evs,
    RunElement.checkCppCode source w = (c, after w e evs)
    /\ (forallb compile_failed evs = true ->
        forallb (fun ev => negb (is_run_call ev)) evs = true
        /\ forall tc, tc ∈ testCases (replay evs (store w)) ->
             failed_because msg_compilation_failed tc).
Proof.
  unfold RunElement.checkCppCode, bind. simpl.
  pose proof (checkCppCode_body_spec w (Some "") source (testCases (store w)) w
                (runs_start w _ eq_refl)) as Hbody.
  unfold try_finally. destruct (checkCppCode_body _ _ _ w) as [[[]|err] w1]; simpl.
  - destruct Hbody as (e & evs & -> & Hrw & Hcf).
    exists (Normal tt), e, evs. split; [done|]. intros Hall.
    destruct (Hcf Hall) as (Hnr & feedback & Hmsg & Hdone). split; [done|].
    intros tc Hin. destruct (Hdone tc Hin) as [Hst Hfb].
    { rewrite <- (replay_ids evs) by done. by apply list_elem_of_fmap_2. }
    split; [done|]. by rewrite Hfb, <- Hmsg.
  - destruct Hbody as (e & evs & -> & _ & Hcf).
    exists (Thrown err), e, evs. split; [done|]. by rewrite Hcf.
Qed.

(** C1. In a submission in a compiled language (by [checkCppCode], or by
    [checkCode] in a language that needs compilation) in which every
    compile call returned a completed result with an exit code other
    than 0, no run call was made, and every test case of the store has
    failed for one and the same reason. *)
Theorem compile_failure_short_circuits (check : string -> Async unit) source w :
  check = checkCppCode \/ check = RunElement.checkCppCode
  \/ (check = checkCode
      /\ needsCompilation (supportedLanguages (activeLanguage (store w))) = true) ->
  forallb compile_failed (new_events w (check source w).2) = true ->
  forallb (fun ev => negb (is_run_call ev)) (new_events w (check source w).2) = true
  /\ exists reason,
       forall tc, tc ∈ testCases (store (check source w).2) ->
         failed_because reason tc.
Proof.
  intros [-> | [-> | [-> Hneeds]]].
  - destruct (checkCppCode_short_circuit source w) as (c & e & evs & -> & Hevs).
    simpl. rewrite new_events_after. intros Hall.
    destruct (Hevs Hall). eauto.
  - destruct (RunElement_checkCppCode_short_circuit source w)
      as (c & e & evs & -> & Hevs).
    simpl. rewrite new_events_after. intros Hall.
    destruct (Hevs Hall). eauto.
  - destruct (checkCode_short_circuit source w Hneeds) as (c & e & evs & -> & Hevs).
    simpl. rewrite new_events_after. intros Hall.
    destruct (Hevs Hall). eauto.
Qed.
End CompileErrors.

(** ** The order in which test cases are checked *)

Section Order.
Context `{Host}.
Implicit Types (evs : list Event) (w : World) (cases : list TestCaseState).

Lemma progressed_in_list_order initial k current :
  progressed initial k (S k) current -> in_list_order initial current.
Proof.
  intros (Hids & Hsettled & Hrest). split; [done|].
  intros i j a b Hij Ha Hb Hchanged.
  destruct (decide (j <= k)) as [Hjk|Hjk].
  - eapply Hsettled; [|done]. lia.
  - rewrite <- Hrest in Hchanged by lia. done.
Qed.

(** With distinct identifiers, an identifier names one position. *)
Lemma id_at_position initial current k x i a :
  NoDup (tc_id <$> initial) ->
  tc_id <$> current = tc_id <$> initial ->
  initial !! k = Some x -> current !! i = Some a ->
  tc_id a = tc_id x <-> i = k.
Proof.
  intros Hnodup Hids Hx Ha.
  assert ((tc_id <$> initial) !! k = Some (tc_id x)) as Hk
    by by rewrite list_lookup_fmap, Hx.
  assert ((tc_id <$> initial) !! i = Some (tc_id a)) as Hi
    by by rewrite <- Hids, list_lookup_fmap, Ha.
  split.
  - intros Heq. rewrite Heq in Hi. eapply NoDup_lookup; eauto.
  - intros ->. congruence.
Qed.

(** Rewriting the test case that carries the identifier at position [k]
    touches position [k] only. *)
Lemma lookup_rewrite_at initial current k x (f : TestCaseState -> TestCaseState) i :
  NoDup (tc_id <$> initial) ->
  tc_id <$> current = tc_id <$> initial ->
  initial !! k = Some x ->
  map (fun tc => if decide (tc_id tc = tc_id x) then f tc else tc) current !! i
  = if decide (i = k) then f <$> current !! i else current !! i.
Proof.
  intros Hnodup Hids Hx. rewrite list_lookup_fmap.
  destruct (current !! i) as [a|] eqn:Ha; simpl; [|by destruct (decide _)].
  pose proof (id_at_position _ _ _ _ _ _ Hnodup Hids Hx Ha) as Hiff.
  destruct (decide (tc_id a = tc_id x)), (decide (i = k)); try done; tauto.
Qed.

Lemma ids_rewrite current id (f : TestCaseState -> TestCaseState) :
  (forall tc, tc_id (f tc) = tc_id tc) ->
  tc_id <$> map (fun tc => if decide (tc_id tc = id) then f tc else tc) current
  = tc_id <$> current.
Proof.
  intros Hf. rewrite <- list_fmap_compose. apply list_fmap_ext.
  intros i tc _. simpl. by destruct (decide _).
Qed.

(** While the test case at position [k] is checked, the ones before it
    stay settled and the ones after it stay untouched. *)
Lemma progressed_rewrite initial current k x f :
  NoDup (tc_id <$> initial) -> initial !! k = Some x ->
  (forall tc, tc_id (f tc) = tc_id tc) ->
  progressed initial k (S k) current ->
  progressed initial k (S k)
    (map (fun tc => if decide (tc_id tc = tc_id x) then f tc else tc) current).
Proof.
  intros Hnodup Hx Hf (Hids & Hsettled & Hrest). split_and!.
  - by rewrite ids_rewrite.
  - intros i a Hik. rewrite (lookup_rewrite_at initial _ k x) by done.
    rewrite decide_False by lia. by apply Hsettled.
  - intros i Hki. rewrite (lookup_rewrite_at initial _ k x) by done.
    rewrite decide_False by lia. by apply Hrest.
Qed.

(** When the test case at position [k] settles, the check has
    progressed to position [k + 1]. *)
Lemma progressed_settle initial current k x f :
  NoDup (tc_id <$> initial) -> initial !! k = Some x ->
  (forall tc, tc_id (f tc) = tc_id tc) ->
  (forall tc, settled (tc_status (f tc))) ->
  progressed initial k (S k) current ->
  progressed initial (S k) (S k)
    (map (fun tc => if decide (tc_id tc = tc_id x) then f tc else tc) current).
Proof.
  intros Hnodup Hx Hf Hset (Hids & Hsettled & Hrest). split_and!.
  - by rewrite ids_rewrite.
  - intros i a Hik. rewrite (lookup_rewrite_at initial _ k x) by done.
    destruct (decide (i = k)) as [->|Hne].
    + destruct (current !! k); [|done]. intros [= <-]. apply Hset.
    + apply Hsettled. lia.
  - intros i Hki. rewrite (lookup_rewrite_at initial _ k x) by done.
    rewrite decide_False by lia. by apply Hrest.
Qed.

Lemma progressed_next initial current k :
  progressed initial k k current -> progressed initial k (S k) current.
Proof.
  intros (Hids & Hsettled & Hrest). split_and!; [done..|].
  intros i Hi. apply Hrest. lia.
Qed.

(** Failing a test case when all before it have settled keeps the list
    order. *)
Lemma in_list_order_fail initial current k x f :
  NoDup (tc_id <$> initial) -> initial !! k = Some x ->
  (forall tc, tc_id (f tc) = tc_id tc) ->
  (forall tc, settled (tc_status (f tc))) ->
  in_list_order initial current ->
  (forall i a, i < k -> current !! i = Some a -> settled (tc_status a)) ->
  in_list_order initial
    (map (fun tc => if decide (tc_id tc = tc_id x) then f tc else tc) current)
  /\ (forall i a, i < S k ->
        map (fun tc => if decide (tc_id tc = tc_id x) then f tc else tc) current !! i
        = Some a -> settled (tc_status a)).
Proof.
  intros Hnodup Hx Hf Hset [Hids Hord] Hbefore.
  assert (forall i a, i <= k ->
            map (fun tc => if decide (tc_id tc = tc_id x) then f tc else tc) current !! i
            = Some a -> settled (tc_status a)) as Hsettled.
  { intros i a Hik. rewrite (lookup_rewrite_at initial _ k x) by done.
    destruct (decide (i = k)) as [->|Hne].
    - destruct (current !! k); [|done]. intros [= <-]. apply Hset.
    - apply Hbefore. lia. }
  split; [split|].
  - by rewrite ids_rewrite.
  - intros i j a b Hij Ha Hb Hchanged.
    destruct (decide (i <= k)) as [Hik|Hik]; [by eapply Hsettled|].
    rewrite (lookup_rewrite_at initial _ k x) in Ha by done.
    rewrite (lookup_rewrite_at initial _ k x) in Hb by done.
    rewrite decide_False in Ha by lia. rewrite decide_False in Hb by lia.
    by eapply Hord.
  - intros i a Hi. apply Hsettled. lia.
Qed.

(** If no test case was being checked at the start, list order leaves
    room for one test case being checked at a time. *)
Lemma in_list_order_one_checking initial current :
  Forall (fun tc => tc_status tc <> checking) initial ->
  in_list_order initial current -> at_most_one_checking current.
Proof.
  intros Hinit [Hids Hord].
  assert (forall i j a b, i < j -> current !! i = Some a -> current !! j = Some b ->
            tc_status a = checking -> tc_status b = checking -> False) as Hlt.
  { intros i j a b Hij Ha Hb Hca Hcb.
    destruct (Hord i j a b Hij Ha Hb) as [Hs|Hs]; [|congruence..].
    intros Hsame. apply list_elem_of_lookup_2 in Hsame.
    by eapply Forall_forall in Hinit. }
  intros i j a b Ha Hb Hca Hcb.
  destruct (Nat.lt_total i j) as [Hij|[->|Hji]]; [|done|].
  - by destruct (Hlt i j a b).
  - by destruct (Hlt j i b a).
Qed.

Lemma prefix_snoc_cases evs ev pre :
  pre `prefix_of` evs ++ [ev] -> pre `prefix_of` evs \/ pre = evs ++ [ev].
Proof.
  intros [k Hk]. destruct k as [|y k _] using rev_ind.
  - right. by rewrite app_nil_r in Hk.
  - left. rewrite app_assoc in Hk. apply app_inj_tail in Hk as [-> _].
    by exists k.
Qed.

Lemma always_in_list_order_snoc state evs ev :
  always_in_list_order state evs ->
  in_list_order (testCases state) (testCases (reduce ev (replay evs state))) ->
  always_in_list_order state (evs ++ [ev]).
Proof.
  intros Hall Hnew pre [Hpre | ->]%prefix_snoc_cases; [by apply Hall|].
  by rewrite replay_snoc.
Qed.

Lemma always_in_list_order_now state evs :
  always_in_list_order state evs ->
  in_list_order (testCases state) (testCases (replay evs state)).
Proof. intros Hall. by apply Hall. Qed.

Lemma always_in_list_order_nil state : always_in_list_order state [].
Proof.
  intros pre Hpre. apply prefix_nil_inv in Hpre as ->. simpl.
  split; [done|]. intros i j a b _ _ Hb Hchanged. done.
Qed.
End Order.

Section CheckOrder.
Context `{Host}.
Implicit Types (evs : list Event) (w : World) (cases : list TestCaseState).

Lemma checkCode_loop_order w0 source state :
  NoDup (tc_id <$> testCases (store w0)) ->
  testCases state = testCases (store w0) ->
  triple
    (runs w0 (fun evs => evs = []))
    (for_of (testCases state)
       (checkCode_case source state (getHeadlessExecutor (activeLanguage state))))
    (fun _ => runs w0 (always_in_list_order (store w0)))
    (fun _ => runs w0 (always_in_list_order (store w0))).
Proof.
  intros Hnodup Hcases.
  pose (Phi := fun k j evs =>
    always_in_list_order (store w0) evs
    /\ progressed (testCases (store w0)) k j (testCases (replay evs (store w0)))).
  eapply triple_weaken;
    [apply (triple_for_of _ _
              (fun done => runs w0 (Phi (length done) (length done)))
              (fun _ => runs w0 (always_in_list_order (store w0))))
    | | | done].
  2: { intros w (e & evs & -> & ->). exists e, []. split; [done|]. split.
       - apply always_in_list_order_nil.
       - split_and!; [done| |done]. intros i a Hi. simpl in Hi. lia. }
  2: { intros [] w (e & evs & -> & Hall & _). by exists e, evs. }
  intros done x rest Hsplit.
  assert (testCases (store w0) !! length done = Some x) as Hx.
  { rewrite <- Hcases, Hsplit. by apply list_lookup_middle. }
  set (k := length done).
  assert (forall evs f ev,
            (forall tc, tc_id (f tc) = tc_id tc) ->
            (forall state', testCases (reduce ev state')
               = map (fun tc => if decide (tc_id tc = tc_id x) then f tc else tc)
                     (testCases state')) ->
            Phi k (S k) evs -> Phi k (S k) (evs ++ [ev])) as Hrewrite.
  { intros evs f ev Hf Hev [Hall Hprog].
    assert (progressed (testCases (store w0)) k (S k)
              (testCases (replay (evs ++ [ev]) (store w0)))) as Hprog'.
    { rewrite replay_snoc, Hev. by apply progressed_rewrite. }
    split; [|done]. apply always_in_list_order_snoc; [done|].
    rewrite <- replay_snoc. by eapply progressed_in_list_order. }
  unfold checkCode_case. eapply triple_bind.
  { apply (runs_dispatch w0 _ (Phi k (S k))). intros evs [Hall Hprog].
    apply (Hrewrite evs (with_status checking None)); [done..|].
    split; [done|]. by apply progressed_next. }
  intros []. eapply triple_bind.
  { apply (runs_getHeadlessExecutor w0 (Phi k (S k))
             (always_in_list_order (store w0))).
    - intros evs c r [Hall Hprog]. split.
      + apply always_in_list_order_snoc; [done|].
        by eapply progressed_in_list_order.
      + by rewrite replay_snoc.
    - intros evs c err [Hall Hprog].
      apply always_in_list_order_snoc; [done|].
      by eapply progressed_in_list_order. }
  intros result. eapply triple_bind.
  { apply (runs_dispatch w0 _ (Phi k (S k))). intros evs HPhi.
    by apply (Hrewrite evs (with_result result)). }
  intros []. apply runs_processResult.
  intros evs status feedback [Hall Hprog] _ Hset.
  assert (progressed (testCases (store w0)) (S k) (S k)
            (testCases (replay (evs ++ [SetTestStatus (tc_id x) status feedback])
                          (store w0)))) as Hprog'.
  { rewrite replay_snoc.
    by apply (progressed_settle _ _ k x (with_status status feedback)). }
  unfold Phi. rewrite length_app. simpl. rewrite Nat.add_1_r. split; [|done].
  apply always_in_list_order_snoc; [done|]. rewrite <- replay_snoc.
  eapply progressed_in_list_order, progressed_next, Hprog'.
Qed.

Lemma fail_all_order w0 E :
  NoDup (tc_id <$> testCases (store w0)) ->
  triple
    (runs w0 (always_in_list_order (store w0)))
    (fail_all (testCases (store w0)))
    (fun _ => runs w0 (always_in_list_order (store w0)))
    E.
Proof.
  intros Hnodup. unfold fail_all.
  pose (Phi := fun k evs =>
    always_in_list_order (store w0) evs
    /\ forall i a, i < k -> testCases (replay evs (store w0)) !! i = Some a ->
         settled (tc_status a)).
  eapply triple_weaken;
    [apply (triple_for_of _ _ (fun done => runs w0 (Phi (length done))) E)
    | | | done].
  2: { intros w (e & evs & -> & Hall). exists e, evs. split; [done|].
       split; [done|]. intros i a Hi. simpl in Hi. lia. }
  2: { intros [] w (e & evs & -> & Hall & _). by exists e, evs. }
  intros done x rest Hsplit.
  assert (testCases (store w0) !! length done = Some x) as Hx.
  { rewrite Hsplit. by apply list_lookup_middle. }
  apply runs_dispatch. intros evs [Hall Hbefore].
  destruct (in_list_order_fail (testCases (store w0))
              (testCases (replay evs (store w0))) (length done) x
              (with_status fail (Some (feedback_of msg_unexpected))))
    as [Hord Hsettled]; try done.
  { intros tc. by right. }
  { by apply always_in_list_order_now. }
  split.
  - apply always_in_list_order_snoc; done.
  - rewrite length_app, replay_snoc. simpl. rewrite Nat.add_1_r. done.
Qed.

(** The states of the store that a listener sees during [checkCode]. *)
Lemma checkCode_order source w :
  NoDup (tc_id <$> testCases (store w)) ->
  exists e evs,
    checkCode source w = (Normal tt, after w e evs)
    /\ always_in_list_order (store w) evs.
Proof.
  intros Hnodup. unfold checkCode, bind. simpl.
  pose proof (checkCode_loop_order w source (store w) Hnodup eq_refl w
                (runs_start w _ eq_refl)) as Hloop.
  unfold try_catch. destruct (for_of _ _ w) as [[[]|err] w1].
  - destruct Hloop as (e & evs & -> & Hall). by exists e, evs.
  - pose proof (fail_all_order w (fun _ _ => False) Hnodup w1 Hloop) as Hfail.
    destruct (fail_all _ w1) as [[[]|err'] w2]; [|done].
    destruct Hfail as (e & evs & -> & Hall). by exists e, evs.
Qed.

(** C3, amended. During [checkCode] on test cases with distinct
    identifiers, every state of the store that a listener sees was
    reached in list order: a test case differs from its state at the
    start only if all test cases before it have settled. If no test
    case was being checked at the start, at most one is being checked
    in every such state. *)
Theorem checkCode_in_list_order source w pre :
  NoDup (tc_id <$> testCases (store w)) ->
  pre `prefix_of` new_events w (checkCode source w).2 ->
  in_list_order (testCases (store w)) (testCases (replay pre (store w)))
  /\ (Forall (fun tc => tc_status tc <> checking) (testCases (store w)) ->
      at_most_one_checking (testCases (replay pre (store w)))).
Proof.
  intros Hnodup.
  destruct (checkCode_order source w Hnodup) as (e & evs & -> & Hall).
  simpl. rewrite new_events_after. intros Hpre. split; [by apply Hall|].
  intros Hinit. eapply in_list_order_one_checking; [done|]. by apply Hall.
Qed.
End CheckOrder.

(** ** Running a submission again *)

Section Again.
Context `{Host}.
Implicit Types (evs : list Event) (w : World) (tc : TestCaseState).

(** *** Test cases after a list of events *)

Lemma testCases_reduce ev state :
  rewrites_cases ev = true ->
  testCases (reduce ev state) = map (rewrite_case ev) (testCases state).
Proof. destruct ev; try done; intros _; simpl; by rewrite ?map_id. Qed.

Lemma rewritten_nil tc : rewritten [] tc = tc.
Proof. by destruct tc. Qed.

Lemma rewritten_cons ev evs tc :
  rewritten (ev :: evs) tc = rewritten evs (rewrite_case ev tc).
Proof.
  unfold rewritten. destruct ev as [c o|id status feedback|id result|tc'|now passed];
    cbn [rewrite_case last_status last_result];
    try (destruct (last_status evs _), (last_result evs _); reflexivity).
  - destruct (decide (tc_id tc = id)) as [<-|Hne].
    + cbn [with_status tc_id tc_status tc_feedback
        tc_result tc_description tc_stdin tc_expectedOutput].
      destruct (last_status evs _), (last_result evs _); reflexivity.
    + destruct (last_status evs _), (last_result evs _); reflexivity.
  - destruct (decide (tc_id tc = id)) as [<-|Hne].
    + cbn [with_result tc_id tc_status tc_feedback
        tc_result tc_description tc_stdin tc_expectedOutput].
      destruct (last_status evs _), (last_result evs _); reflexivity.
    + destruct (last_status evs _), (last_result evs _); reflexivity.
Qed.

Lemma testCases_replay evs state :
  forallb rewrites_cases evs = true ->
  testCases (replay evs state) = map (rewritten evs) (testCases state).
Proof.
  revert state. induction evs as [|ev evs IH]; intros state Hall.
  - simpl. rewrite <- (map_id (testCases state)) at 1.
    apply map_ext. intros tc. by rewrite rewritten_nil.
  - simpl in Hall. apply andb_true_iff in Hall as [Hev Hall].
    change (replay (ev :: evs) state) with (replay evs (reduce ev state)).
    rewrite IH, testCases_reduce, map_map by done.
    apply map_ext. intros tc. by rewrite rewritten_cons.
Qed.

(** The events write over what they wrote before. *)
Lemma rewritten_twice evs tc : rewritten evs (rewritten evs tc) = rewritten evs tc.
Proof.
  unfold rewritten. simpl.
  by destruct (last_status evs _), (last_result evs _).
Qed.

Lemma testCases_replay_twice evs state :
  forallb rewrites_cases evs = true ->
  testCases (replay evs (replay evs state)) = testCases (replay evs state).
Proof.
  intros Hall. rewrite (testCases_replay evs (replay evs state)) by done.
  rewrite testCases_replay, map_map by done.
  apply map_ext. intros tc. apply rewritten_twice.
Qed.

Lemma replay_frame evs state :
  forallb rewrites_cases evs = true ->
  activeLanguage (replay evs state) = activeLanguage state
  /\ currentProblem (replay evs state) = currentProblem state.
Proof.
  revert state. induction evs as [|ev evs IH]; intros state Hall; [done|].
  simpl in Hall. apply andb_true_iff in Hall as [Hev Hall].
  change (replay (ev :: evs) state) with (replay evs (reduce ev state)).
  destruct (IH (reduce ev state) Hall) as [-> ->]. by destruct ev.
Qed.

Lemma replay_same_cases evs state :
  forallb rewrites_cases evs = true ->
  Forall2 same_case (testCases state) (testCases (replay evs state)).
Proof.
  intros Hall. rewrite testCases_replay by done.
  apply Forall2_fmap_r, Forall_Forall2_diag, Forall_forall.
  intros tc _. by repeat split.
Qed.

(** *** [checkCode] reads of a test case what no check writes *)

Lemma for_of_same {T} (R : T -> T -> Prop) (xs ys : list T) (f g : T -> Async unit) :
  Forall2 R xs ys -> (forall x y, R x y -> f x = g y) -> for_of xs f = for_of ys g.
Proof.
  intros Hxs Hfg. induction Hxs as [|x y xs ys Hxy _ IH]; [done|].
  simpl. by rewrite (Hfg x y Hxy), IH.
Qed.

Lemma checkCode_case_same source state state' executor tc tc' :
  activeLanguage state = activeLanguage state' ->
  currentProblem state = currentProblem state' ->
  same_case tc tc' ->
  checkCode_case source state executor tc = checkCode_case source state' executor tc'.
Proof.
  intros Hlang Hproblem (Hid & Hdescr & Hstdin & Hexp).
  unfold checkCode_case. rewrite Hlang, Hproblem.
  destruct tc, tc'. simpl in *. subst. reflexivity.
Qed.

Lemma checkCode_on_same source state state' :
  activeLanguage state = activeLanguage state' ->
  currentProblem state = currentProblem state' ->
  Forall2 same_case (testCases state) (testCases state') ->
  checkCode_on source state = checkCode_on source state'.
Proof.
  intros Hlang Hproblem Hcases. unfold checkCode_on, fail_all.
  rewrite (for_of_same same_case (testCases state) (testCases state')
             (checkCode_case source state (getHeadlessExecutor (activeLanguage state)))
             (checkCode_case source state' (getHeadlessExecutor (activeLanguage state'))));
    [|done|].
  - rewrite (for_of_same same_case (testCases state) (testCases state')
               (fun testCase => dispatch (SetTestStatus (tc_id testCase) fail
                                            (Some (feedback_of msg_unexpected))))
               (fun testCase => dispatch (SetTestStatus (tc_id testCase) fail
                                            (Some (feedback_of msg_unexpected)))));
      [done|done|].
    intros x y (Hid & _). by rewrite Hid.
  - intros x y Hxy. rewrite <- Hlang. by apply checkCode_case_same.
Qed.

Lemma checkCode_unfold source w : checkCode source w = checkCode_on source (store w) w.
Proof. reflexivity. Qed.

(** *** [checkCode] reads of the world the engine only *)

Lemma oblivious_ret {A} (a : A) : oblivious (ret a).
Proof.
  intros w1 w2 Heng. exists (Normal a), (engine w1), [].
  split; [done|]. rewrite after_nil, Heng, after_nil. done.
Qed.

Lemma oblivious_bind {A B} (m : Async A) (k : A -> Async B) :
  oblivious m -> (forall a, oblivious (k a)) -> oblivious (bind m k).
Proof.
  intros Hm Hk w1 w2 Heng.
  destruct (Hm w1 w2 Heng) as (c & e & evs & Hrw & Hm1 & Hm2).
  unfold bind. rewrite Hm1, Hm2. destruct c as [a|err].
  - destruct (Hk a (after w1 e evs) (after w2 e evs) eq_refl)
      as (c' & e' & evs' & Hrw' & -> & ->).
    exists c', e', (evs ++ evs'). rewrite !after_after, forallb_app, Hrw, Hrw'. done.
  - by exists (Thrown err), e, evs.
Qed.

Lemma oblivious_try_catch {A} (m : Async A) handler :
  oblivious m -> (forall err, oblivious (handler err)) ->
  oblivious (try_catch m handler).
Proof.
  intros Hm Hh w1 w2 Heng.
  destruct (Hm w1 w2 Heng) as (c & e & evs & Hrw & Hm1 & Hm2).
  unfold try_catch. rewrite Hm1, Hm2. destruct c as [a|err].
  - by exists (Normal a), e, evs.
  - destruct (Hh err (after w1 e evs) (after w2 e evs) eq_refl)
      as (c' & e' & evs' & Hrw' & -> & ->).
    exists c', e', (evs ++ evs'). rewrite !after_after, forallb_app, Hrw, Hrw'. done.
Qed.

Lemma oblivious_for_of {T} (xs : list T) (body : T -> Async unit) :
  (forall x, oblivious (body x)) -> oblivious (for_of xs body).
Proof.
  intros Hbody. induction xs as [|x xs IH]; simpl.
  - apply oblivious_ret.
  - apply oblivious_bind; [apply Hbody | by intros _].
Qed.

Lemma oblivious_dispatch ev : rewrites_cases ev = true -> oblivious (dispatch ev).
Proof.
  intros Hev w1 w2 Heng. exists (Normal tt), (engine w1), [ev].
  split; [by simpl; rewrite Hev|]. rewrite !dispatch_after, Heng. done.
Qed.

Lemma oblivious_headlessRunCode language source stdin :
  oblivious (headlessRunCode language source stdin).
Proof.
  intros w1 w2 Heng. unfold headlessRunCode. rewrite <- Heng.
  destruct (engine_run _ _) as [o e].
  destruct o as [r|err]; eexists _, e, [Call _ _]; done.
Qed.

Lemma oblivious_getHeadlessExecutor language source stdin :
  oblivious (getHeadlessExecutor language source stdin).
Proof.
  unfold getHeadlessExecutor. destruct (needsCompilation _).
  - apply oblivious_bind; [apply oblivious_headlessRunCode|].
    intros compileResult. destruct (complete_nonzero _);
      [apply oblivious_ret | apply oblivious_headlessRunCode].
  - apply oblivious_bind; [apply oblivious_headlessRunCode|].
    intros result. destruct (_ && _);
      [apply oblivious_headlessRunCode | apply oblivious_ret].
Qed.

Lemma oblivious_processResult testCase result :
  oblivious (processResult testCase result).
Proof.
  unfold processResult. destruct result as [r| |];
    [|by apply oblivious_dispatch..].
  destruct (negb _); [by apply oblivious_dispatch|].
  destruct (tc_expectedOutput testCase) as [[|c e]|];
    [by apply oblivious_dispatch| |by apply oblivious_dispatch].
  destruct (String.eqb _ _); by apply oblivious_dispatch.
Qed.

Lemma oblivious_checkCode_on source state : oblivious (checkCode_on source state).
Proof.
  unfold checkCode_on. apply oblivious_try_catch.
  - apply oblivious_for_of. intros testCase. unfold checkCode_case.
    apply oblivious_bind; [by apply oblivious_dispatch|]. intros _.
    apply oblivious_bind; [apply oblivious_getHeadlessExecutor|]. intros result.
    apply oblivious_bind; [by apply oblivious_dispatch|]. intros _.
    apply oblivious_processResult.
  - intros _. apply oblivious_for_of. intros testCase. by apply oblivious_dispatch.
Qed.

(** C8. Running [checkCode] again on the same code, on the test cases as
    the first run left them and with the engine in the state in which
    the first run found it, makes the same calls and gives the same
    verdicts in the same order, completes as the first run did, and
    leaves every test case as the first run left it. *)
Theorem checkCode_idempotent source w :
  let first := checkCode source w in
  let again := restart (engine w) first.2 in
  let second := checkCode source again in
  new_events again second.2 = new_events w first.2
  /\ second.1 = first.1
  /\ testCases (store second.2) = testCases (store first.2).
Proof.
  simpl. rewrite !checkCode_unfold.
  destruct (oblivious_checkCode_on source (store w) w
              (restart (engine w) (checkCode_on source (store w) w).2) eq_refl)
    as (c & e & evs & Hrw & Hfirst & Hsecond).
  rewrite Hfirst in Hsecond |- *. simpl in *.
  destruct (replay_frame evs (store w) Hrw) as [Hlang Hproblem].
  rewrite (checkCode_on_same source (replay evs (store w)) (store w)); [| done..|].
  - rewrite Hsecond. simpl. rewrite !new_events_after.
    split_and!; [done..|]. by apply testCases_replay_twice.
  - apply Forall2_flip. eapply Forall2_impl; [by apply replay_same_cases|].
    intros a b (? & ? & ? & ?). by repeat split.
Qed.
End Again.

(** ** The two phases of a compiled language *)

Section TwoPhases.
Context `{Host}.

(** After a compile call that returned anything but a completed result
    with an exit code other than 0, the executor of [checkCode] makes
    the run call and completes as that call does. The call carries no
    standard input: the executor does not use its [stdin]. *)
Lemma getHeadlessExecutor_two_phases language source stdin w compileResult e :
  needsCompilation (supportedLanguages language) = true ->
  engine_run (engine w)
    {| call_runtime := language; call_code := compile_source source;
       call_stdin := None |} = (Returned compileResult, e) ->
  complete_nonzero compileResult = false ->
  getHeadlessExecutor language source stdin w
  = headlessRunCode language (run_source source) None
      (after w e [Call {| call_runtime := language;
                          call_code := compile_source source;
                          call_stdin := None |} (Returned compileResult)]).
Proof.
  intros Hneeds Hrun Hok. unfold getHeadlessExecutor. rewrite Hneeds.
  unfold bind at 1. unfold headlessRunCode at 1. rewrite Hrun, Hok. reflexivity.
Qed.
End TwoPhases.

(** C2, at a test case whose standard input is 5: the sequencer computes
    the standard input 5 and a line feed, the compilation succeeds, and
    the run call of the executor of [checkCode] carries no standard
    input; the program that echoes its input prints [no input] and the
    test case fails. On the hidden element, a compilation that crashes is
    not followed by a run call: the crash is returned. *)
Theorem run_call_without_stdin :
  let testCase := test_case "a" "echo 5" (Some "5") (Some "5") in
  let w := @world_of (scripted_host answer_echo) 0 (store_of clangpp [testCase] None) in
  let w' := (@checkCode (scripted_host answer_echo) "main" w).2 in
  stdin_of testCase = "5" +:+ nl
  /\ filter (fun ev => is_run_call ev = true) (trace w')
     = [Call {| call_runtime := clangpp; call_code := run_source "main";
                call_stdin := None |}
             (Returned (completed "no input" "" 0))]
  /\ tc_status <$> testCases (store w') = [fail]
  /\ let v := @world_of (scripted_host answer_crash) 0 (store_of clangpp [testCase] None) in
     let run := @RunElement.getHeadlessExecutor (scripted_host answer_crash)
                  clangpp "main" ("5" +:+ nl) v in
     run.1 = Normal (crash "RuntimeError: memory access out of bounds")
     /\ filter (fun ev => is_run_call ev = true) (trace run.2) = [].
Proof. vm_compute. repeat split. Qed.

(** ** Errors thrown by the engine *)

(** C5, on the hidden element: when the engine rejects the call,
    [checkCode] throws the error to its caller and the test case in
    flight stays in the state [checking]. *)
Theorem RunElement_checkCode_throws :
  let w := @world_of (scripted_host answer_reject) 0
             (store_of python [test_case "a" "runs" None None] None) in
  let run := @RunElement.checkCode (scripted_host answer_reject) "main" w in
  run.1 = Thrown "RuntimeError: unreachable"
  /\ tc_status <$> testCases (store run.2) = [checking].
Proof. vm_compute. by split. Qed.

(** ** [runTests] *)

Section RunTests.
Context `{Host}.

Lemma testCases_updateProblemProgress now passed state :
  testCases (updateProblemProgress now passed state) = testCases state.
Proof.
  unfold updateProblemProgress. destruct (currentProblem state); [|done].
  destruct (findIndex _ _); [|done]. by destruct (_ !! _).
Qed.

(** A loop whose body completes normally completes normally. *)
Lemma for_of_normal {T} (xs : list T) (body : T -> Async unit) w :
  (forall x w, (body x w).1 = Normal tt) -> (for_of xs body w).1 = Normal tt.
Proof.
  intros Hbody. revert w. induction xs as [|x xs IH]; intros w; [done|].
  simpl. unfold bind. specialize (Hbody x w).
  destruct (body x w) as [[[]|err] w']; [apply IH | done].
Qed.

Lemma checkCode_normal source w : (checkCode source w).1 = Normal tt.
Proof.
  by destruct (checkCode_contains_rejections source w) as (e & evs & -> & _).
Qed.

(** [runTests] completes normally, and its last action is the update of
    the progress with [allPassed] of the test cases as [checkCode] left
    them. *)
Lemma runTests_ends_with_update w :
  exists checked,
    runTests w
    = (Normal tt,
       {| store := updateProblemProgress (toISOString_at (draws checked))
                     (allPassed (testCases (store checked))) (store checked);
          engine := engine checked; draws := S (draws checked);
          trace := trace checked
                   ++ [UpdateProblemProgress (toISOString_at (draws checked))
                         (allPassed (testCases (store checked)))] |}).
Proof.
  unfold runTests. unfold bind at 1. simpl.
  match goal with |- context [bind ?m _] => set (init := m) end.
  assert ((init w).1 = Normal tt) as Hinit.
  { subst init. destruct (testCases (store w)); [|done].
    destruct (_ ≫= _); [|done]. by apply for_of_normal. }
  unfold bind at 1. destruct (init w) as [[[]|err] w1]; [|done]. clear Hinit.
  unfold try_catch. unfold bind at 1.
  pose proof (for_of_normal (testCases (store w))
                (fun testCase => dispatch (SetTestStatus (tc_id testCase) checking None))
                w1 (fun _ _ => eq_refl)) as Hmark.
  destruct (for_of _ _ w1) as [[[]|err] w2]; [|done]. clear Hmark.
  unfold bind at 1. pose proof (checkCode_normal (code (store w)) w2) as Hcheck.
  destruct (checkCode _ w2) as [[[]|err] w3]; [|done]. clear Hcheck.
  by exists w3.
Qed.

Lemma runTests_aggregates w :
  exists now,
    (runTests w).1 = Normal tt
    /\ last (trace (runTests w).2)
       = Some (UpdateProblemProgress now
                 (allPassed (testCases (store (runTests w).2)))).
Proof.
  destruct (runTests_ends_with_update w) as (checked & ->).
  exists (toISOString_at (draws checked)). split; [done|]. simpl.
  by rewrite last_snoc, testCases_updateProblemProgress.
Qed.

(** C4, amended. The flag that [runTests] passes to the update of the
    progress is true exactly if every test case has the status [pass]
    when [checkCode] is done; for an empty list of test cases it is
    true. *)
Theorem aggregation_all_pass w :
  exists now passed,
    (runTests w).1 = Normal tt
    /\ last (trace (runTests w).2) = Some (UpdateProblemProgress now passed)
    /\ (passed = true <->
        Forall (fun tc => tc_status tc = pass) (testCases (store (runTests w).2)))
    /\ (testCases (store (runTests w).2) = [] -> passed = true).
Proof.
  destruct (runTests_aggregates w) as (now & Hnormal & Hlast).
  exists now, (allPassed (testCases (store (runTests w).2))).
  split_and!; [done..| |].
  - apply allPassed_Forall.
  - by intros ->.
Qed.
End RunTests.

(** C4, the claim at the empty list: a problem without test cases is
    recorded as solved by a submission. *)
Lemma empty_problem_recorded_solved :
  let w := @world_of (scripted_host answer_five) 0
             (store_of python [] (Some empty_problem)) in
  let w' := (@runTests (scripted_host answer_five) w).2 in
  ~ (testCases (store w') = [] ->
     solved <$> getProgressForProblem "empty" (store w') = Some false).
Proof.
  intros w w' Hclaim. specialize (Hclaim eq_refl).
  vm_compute in Hclaim. discriminate.
Qed.

(** C3, the claim at two test cases: [runTests] first sets every test
    case to [checking], so a listener sees both being checked at once. *)
Lemma runTests_two_checking :
  let w := @world_of (scripted_host answer_echo) 0 (store_of python two_cases None) in
  let evs := new_events w (@runTests (scripted_host answer_echo) w).2 in
  ~ (forall pre, pre `prefix_of` evs ->
       at_most_one_checking (testCases (replay pre (store w)))).
Proof.
  intros w evs Hclaim.
  specialize (Hclaim (take 2 evs) (prefix_take _ _) 0 1
                (with_status checking None (test_case "a" "echo 5" (Some "5") (Some "5")))
                (with_status checking None (test_case "b" "echo 7" (Some "7") (Some "7")))).
  vm_compute in Hclaim. by specialize (Hclaim eq_refl eq_refl eq_refl eq_refl).
Qed.

(** ** The theorems at concrete inputs *)

Lemma compile_failure_short_circuits_witness :
  let w := @world_of (scripted_host answer_compile_error) 0
             (store_of clangpp two_cases None) in
  let w' := (@checkCode (scripted_host answer_compile_error) "main" w).2 in
  forallb (fun ev => negb (is_run_call ev)) (new_events w w') = true
  /\ exists reason, forall tc, tc ∈ testCases (store w') -> failed_because reason tc.
Proof.
  apply (@compile_failure_short_circuits (scripted_host answer_compile_error)
           (@checkCode (scripted_host answer_compile_error)) "main").
  - right. right. split; reflexivity.
  - vm_compute. reflexivity.
Defined.

Lemma checkCode_in_list_order_witness :
  let w := @world_of (scripted_host answer_echo) 0 (store_of python two_cases None) in
  let pre := take 4 (new_events w (@checkCode (scripted_host answer_echo) "main" w).2) in
  in_list_order (testCases (store w)) (testCases (replay pre (store w)))
  /\ (Forall (fun tc => tc_status tc <> checking) (testCases (store w)) ->
      at_most_one_checking (testCases (replay pre (store w)))).
Proof.
  apply (@checkCode_in_list_order (scripted_host answer_echo) "main").
  - refine (bool_decide_unpack _ _). vm_compute. exact I.
  - apply prefix_take.
Defined.

Lemma clean_exit_verdict_witness :
  let testCase := test_case "a" "prints 5" None (Some "5") in
  let r := {| res_stdin := ""; stdout := "5" +:+ nl; stderr := ""; tty := "5" +:+ nl;
              exitCode := 0 |} in
  let tc := with_result (complete r) (with_status pass None testCase) in
  (tc_expectedOutput testCase = None \/ tc_expectedOutput testCase = Some "" ->
     tc_status tc = pass)
  /\ (forall expectedOutput,
        tc_expectedOutput testCase = Some expectedOutput -> expectedOutput <> "" ->
        (tc_status tc = pass <-> trim (stdout r) = trim expectedOutput)
        /\ (trim (stdout r) <> trim expectedOutput ->
              tc_status tc = fail
              /\ tc_feedback tc =
                   Some {| message := msg_mismatch; error := None;
                           expected := Some expectedOutput;
                           received := Some (stdout r) |})).
Proof.
  pose (host := scripted_host answer_five).
  pose (testCase := test_case "a" "prints 5" None (Some "5")).
  pose (state := store_of python [testCase] None).
  pose (w := @world_of host 0 state).
  apply (@clean_exit_verdict host "print(5)" state
           (@getHeadlessExecutor host python) testCase w
           {| res_stdin := ""; stdout := "5" +:+ nl; stderr := ""; tty := "5" +:+ nl;
              exitCode := 0 |}
           (@getHeadlessExecutor host python
              (@codeToRun host "print(5)" None python testCase) (stdin_of testCase)
              (@dispatch host (SetTestStatus "a" checking None) w).2).2).
  - vm_compute. reflexivity.
  - reflexivity.
  - vm_compute. apply list_elem_of_In. left. reflexivity.
  - reflexivity.
Defined.

Lemma nonzero_exit_verdict_witness :
  let testCase := test_case "a" "prints 5" None (Some "5") in
  let r := {| res_stdin := ""; stdout := "";
              stderr := "NameError: name 'x' is not defined";
              tty := "NameError: name 'x' is not defined"; exitCode := 1 |} in
  let tc := with_result (complete r)
              (with_status fail
                 (Some {| message := msg_program_error;
                          error := Some "NameError: name 'x' is not defined";
                          expected := None; received := None |}) testCase) in
  tc_status tc = fail
  /\ tc_feedback tc =
       Some {| message := msg_program_error; error := Some (tty r);
               expected := None; received := None |}.
Proof.
  pose (host := scripted_host answer_runtime_error).
  pose (testCase := test_case "a" "prints 5" None (Some "5")).
  pose (state := store_of python [testCase] None).
  pose (w := @world_of host 0 state).
  apply (@nonzero_exit_verdict host "print(x)" state
           (@getHeadlessExecutor host python) testCase w
           {| res_stdin := ""; stdout := "";
              stderr := "NameError: name 'x' is not defined";
              tty := "NameError: name 'x' is not defined"; exitCode := 1 |}
           (@getHeadlessExecutor host python
              (@codeToRun host "print(x)" None python testCase) (stdin_of testCase)
              (@dispatch host (SetTestStatus "a" checking None) w).2).2).
  - vm_compute. reflexivity.
  - discriminate.
  - vm_compute. apply list_elem_of_In. left. reflexivity.
  - reflexivity.
Defined.

Lemma updateProblemProgress_merges_witness :
  let state := store_with_progress in
  let now := "2025-03-01T00:00:00.000Z" in
  (forall language, language <> activeLanguage state ->
     (progress ← getProgressForProblem "empty" (updateProblemProgress now false state);
      languages progress !! language)
     = (progress ← getProgressForProblem "empty" state;
        languages progress !! language))
  /\ (forall i p, problemId p <> "empty" ->
        userProgress (updateProblemProgress now false state) !! i = Some p
        <-> userProgress state !! i = Some p).
Proof.
  apply (updateProblemProgress_merges "2025-03-01T00:00:00.000Z" false
           store_with_progress empty_problem).
  reflexivity.
Defined.

Lemma updateProblemProgress_solved_monotone_witness :
  let state := store_with_progress in
  let now := "2025-03-01T00:00:00.000Z" in
  exists new,
    getProgressForProblem "empty" (updateProblemProgress now false state) = Some new
    /\ solved new = solved solved_in_python || false
    /\ (solved solved_in_python = true -> solved new = true)
    /\ (lp_passed <$> languages new !! activeLanguage state) = Some false.
Proof.
  apply (updateProblemProgress_solved_monotone "2025-03-01T00:00:00.000Z" false
           store_with_progress empty_problem solved_in_python).
  - reflexivity.
  - reflexivity.
Defined.

(** * More about the store *)

Section StoreActions.
Implicit Types (state : RunnoStore) (up : list UserProblemProgress).

Lemma with_testCases_same state : with_testCases (testCases state) state = state.
Proof. by destruct state. Qed.

(** X1. A status or a result written to an identifier that no test case
    carries changes nothing in the store. *)
Theorem write_to_unknown_id id status feedback result state :
  id ∉ (tc_id <$> testCases state) ->
  setTestStatus id status feedback state = state
  /\ setResults id result state = state.
Proof.
  intros Hid.
  assert (forall f : TestCaseState -> TestCaseState,
            map (fun tc => if decide (tc_id tc = id) then f tc else tc) (testCases state)
            = testCases state) as Hmap.
  { intros f. rewrite <- (map_id (testCases state)) at 2.
    apply map_ext_in. intros tc Hin. destruct (decide (tc_id tc = id)) as [<-|]; [|done].
    destruct Hid. apply list_elem_of_fmap_2. by apply list_elem_of_In. }
  unfold setTestStatus, setResults. rewrite !Hmap. split; apply with_testCases_same.
Qed.

Lemma find_progress_insert pid up i old new :
  list_find (fun p => problemId p = pid) up = Some (i, old) ->
  problemId new = pid ->
  list_find (fun p => problemId p = pid) (<[i := new]> up) = Some (i, new).
Proof.
  intros (Hi & Hp & Hbefore)%list_find_Some Hnew. apply list_find_Some. split_and!.
  - apply list_lookup_insert_eq. by eapply lookup_lt_Some.
  - done.
  - intros j y Hj Hlt. rewrite list_lookup_insert_ne in Hj by lia. eauto.
Qed.

Lemma find_progress_snoc pid up new :
  list_find (fun p => problemId p = pid) up = None ->
  problemId new = pid ->
  list_find (fun p => problemId p = pid) (up ++ [new]) = Some (length up, new).
Proof.
  intros Hnone%list_find_None Hnew. apply list_find_Some. split_and!.
  - by rewrite lookup_app_r, Nat.sub_diag.
  - done.
  - intros j y Hj Hlt. rewrite lookup_app_l in Hj by done.
    eapply Forall_lookup_1 in Hnone; eauto.
Qed.

(** X2. After the progress of the current problem is updated, the code
    saved for the problem and the active language is the code of the
    store. *)
Theorem saved_code_after_update now passed state problem :
  currentProblem state = Some problem ->
  loadUserCode (p_id problem) (activeLanguage state)
    (updateProblemProgress now passed state)
  = Some (code state).
Proof.
  intros Hcur. unfold loadUserCode.
  destruct (getProgressForProblem (p_id problem) state) as [old|] eqn:Hold.
  - rewrite (updateProblemProgress_existing _ _ _ _ _ Hcur Hold). simpl.
    by rewrite lookup_insert_eq.
  - rewrite (updateProblemProgress_fresh _ _ _ _ Hcur Hold). simpl.
    by rewrite lookup_singleton_eq.
Qed.

(** X3. Updating the progress twice with the same result at the same
    time is updating it once. *)
Theorem updateProblemProgress_twice now passed state :
  updateProblemProgress now passed (updateProblemProgress now passed state)
  = updateProblemProgress now passed state.
Proof.
  unfold updateProblemProgress, findIndex.
  destruct (currentProblem state) as [problem|] eqn:Hcur; [|by rewrite Hcur].
  destruct (list_find _ (userProgress state)) as [[i old]|] eqn:Hfind; simpl.
  - pose proof Hfind as (Hi & Hp & _)%list_find_Some. rewrite Hi. simpl. rewrite Hcur.
    erewrite find_progress_insert by done. simpl.
    rewrite list_lookup_insert_eq by (by eapply lookup_lt_Some).
    unfold with_userProgress. simpl.
    rewrite list_insert_insert_eq, ?insert_insert_eq.
    by rewrite <- orb_assoc, orb_diag.
  - rewrite Hcur. erewrite find_progress_snoc by done. simpl.
    rewrite lookup_app_r, Nat.sub_diag by done. simpl.
    unfold with_userProgress. simpl.
    rewrite insert_app_r_alt, Nat.sub_diag by done. simpl.
    by rewrite ?insert_singleton_eq, orb_diag.
Qed.

(** X4. The progress keeps one record for a problem: if no two records
    are of the same problem before an update, no two are after it, and
    the current problem has a record. *)
Theorem updateProblemProgress_one_record now passed state problem :
  currentProblem state = Some problem ->
  NoDup (problemId <$> userProgress state) ->
  NoDup (problemId <$> userProgress (updateProblemProgress now passed state))
  /\ p_id problem ∈ (problemId <$> userProgress (updateProblemProgress now passed state)).
Proof.
  intros Hcur Hnodup. unfold updateProblemProgress. rewrite Hcur. unfold findIndex.
  destruct (list_find _ (userProgress state)) as [[i old]|] eqn:Hfind; simpl.
  - apply list_find_Some in Hfind as (Hi & Hp & _). rewrite Hi. simpl.
    rewrite list_fmap_insert. simpl.
    rewrite list_insert_id by (by rewrite list_lookup_fmap, Hi).
    split; [done|]. rewrite <- Hp. apply list_elem_of_fmap_2.
    by eapply list_elem_of_lookup_2.
  - apply list_find_None in Hfind. rewrite fmap_app. simpl. split.
    + apply NoDup_app. split_and!; [done| |apply NoDup_singleton].
      intros pid (p & Hpid & Hin)%list_elem_of_fmap Hsame%list_elem_of_singleton.
      eapply Forall_forall in Hfind; [|done]. congruence.
    + apply elem_of_app. right. by apply list_elem_of_singleton.
Qed.

Lemma count_solved_insert up i old new :
  up !! i = Some old ->
  length (filter (fun p => solved p = true) (<[i := new]> up))
  + (if solved old then 1 else 0)
  = length (filter (fun p => solved p = true) up) + (if solved new then 1 else 0).
Proof.
  intros Hi. rewrite <- (take_drop_middle up i old Hi) at 2.
  rewrite insert_take_drop by (by eapply lookup_lt_Some).
  rewrite !filter_app, !filter_cons, !length_app.
  destruct (solved old), (solved new); simpl;
    repeat (destruct (decide _); try done); simpl; lia.
Qed.

(** X5. An update of the progress adds one to the number of solved
    problems if the submission passed and the current problem was not
    recorded as solved, and leaves the number as it is otherwise. *)
Theorem updateProblemProgress_count now passed state problem :
  currentProblem state = Some problem ->
  getCompletedProblemsCount (updateProblemProgress now passed state)
  = getCompletedProblemsCount state
    + (if passed && negb (recorded_solved (p_id problem) state) then 1 else 0).
Proof.
  intros Hcur. unfold getCompletedProblemsCount, recorded_solved, updateProblemProgress.
  rewrite Hcur. unfold getProgressForProblem, findIndex.
  destruct (list_find _ (userProgress state)) as [[i old]|] eqn:Hfind; simpl.
  - apply list_find_Some in Hfind as (Hi & Hp & _). rewrite Hi. simpl.
    pose proof (count_solved_insert (userProgress state) i old
                  {| problemId := problemId old; solved := solved old || passed;
                     lastAttempted := now;
                     languages :=
                       <[activeLanguage state :=
                           {| lp_code := code state; lp_passed := passed;
                              lp_lastAttempted := now |}]> (languages old) |} Hi)
      as Hcount.
    simpl in Hcount. destruct (solved old), passed; simpl in *; lia.
  - rewrite filter_app, length_app, filter_cons. simpl.
    by destruct passed.
Qed.

(** X6. With a current problem and code in the editor: after the
    progress is updated, switching to another language and back brings
    the code back. *)
Theorem switch_language_and_back now passed state problem language :
  currentProblem state = Some problem ->
  code state <> "" ->
  code (setActiveLanguage (activeLanguage state)
          (setActiveLanguage language (updateProblemProgress now passed state)))
  = code state.
Proof.
  intros Hcur Hcode.
  assert (loadUserCode (p_id problem) (activeLanguage state)
            (updateProblemProgress now passed state) = Some (code state)) as Hsaved.
  { unfold loadUserCode.
    destruct (getProgressForProblem (p_id problem) state) as [old|] eqn:Hold.
    - rewrite (updateProblemProgress_existing _ _ _ _ _ Hcur Hold). simpl.
      by rewrite lookup_insert_eq.
    - rewrite (updateProblemProgress_fresh _ _ _ _ Hcur Hold). simpl.
      by rewrite lookup_singleton_eq. }
  assert (currentProblem (updateProblemProgress now passed state) = Some problem) as Hcur'.
  { unfold updateProblemProgress. rewrite Hcur.
    destruct (findIndex _ _); [|done]. by destruct (_ !! _). }
  unfold setActiveLanguage at 2. rewrite Hcur'.
  unfold setActiveLanguage. simpl.
  unfold loadUserCode, getProgressForProblem in *. simpl. rewrite Hsaved.
  by destruct (code state).
Qed.
End StoreActions.

(** * Selecting a problem *)

Section Selecting.
Implicit Types (state : RunnoStore).

Lemma imap_index_only {A B} (g : nat -> B) (l : list A) n :
  imap (fun i _ => g (n + i)) l = g <$> seq n (length l).
Proof.
  revert n. induction l as [|x l IH]; intros n; [done|].
  rewrite imap_cons. simpl. rewrite Nat.add_0_r. f_equal.
  rewrite <- IH. apply imap_ext. intros i y _. simpl. f_equal. lia.
Qed.

(** X7. Selecting a problem replaces the test cases by one test case per
    template of the problem, in the order of the templates, each idle and
    without feedback or result; their identifiers are distinct if the
    identifiers drawn are. *)
Theorem setCurrentProblem_fresh_cases fresh problem state templates :
  p_testCases problem = Some templates ->
  NoDup (fresh <$> seq 0 (length templates)) ->
  let cases := testCases (setCurrentProblem fresh problem state) in
  Forall (fun tc => tc_status tc = idle /\ tc_feedback tc = None /\ tc_result tc = None)
         cases
  /\ NoDup (tc_id <$> cases)
  /\ (fun tc => (tc_description tc, tc_stdin tc, tc_expectedOutput tc)) <$> cases
     = (fun t => (tpl_description t, tpl_stdin t, tpl_expectedOutput t)) <$> templates.
Proof.
  intros Htemplates Hfresh. simpl. rewrite Htemplates. split_and!.
  - apply Forall_forall. intros tc (i & t & -> & _)%elem_of_lookup_imap. done.
  - rewrite fmap_imap.
    rewrite (imap_ext _ (fun i _ => fresh (0 + i))) by done.
    by rewrite imap_index_only.
  - rewrite fmap_imap. rewrite <- imap_const. by apply imap_ext.
Qed.

(** X8. With a current problem and code in the editor: after the
    progress is updated, selecting another problem and then the first
    one again brings the code back. *)
Theorem select_problem_and_back now passed state problem other fresh1 fresh2 :
  currentProblem state = Some problem ->
  code state <> "" ->
  code (setCurrentProblem fresh2 problem
          (setCurrentProblem fresh1 other (updateProblemProgress now passed state)))
  = code state.
Proof.
  intros Hcur Hcode.
  assert (loadUserCode (p_id problem) (activeLanguage state)
            (updateProblemProgress now passed state) = Some (code state)) as Hsaved.
  { unfold loadUserCode.
    destruct (getProgressForProblem (p_id problem) state) as [old|] eqn:Hold.
    - rewrite (updateProblemProgress_existing _ _ _ _ _ Hcur Hold). simpl.
      by rewrite lookup_insert_eq.
    - rewrite (updateProblemProgress_fresh _ _ _ _ Hcur Hold). simpl.
      by rewrite lookup_singleton_eq. }
  assert (activeLanguage (updateProblemProgress now passed state) = activeLanguage state)
    as Hlang.
  { unfold updateProblemProgress. rewrite Hcur.
    destruct (findIndex _ _); [|done]. by destruct (_ !! _). }
  unfold setCurrentProblem. simpl. rewrite Hlang.
  unfold loadUserCode, getProgressForProblem in *. simpl. rewrite Hsaved.
  by destruct (code state).
Qed.
End Selecting.

(** * More about [checkCode] *)

Section Settling.
Context `{Host}.
Implicit Types (evs : list Event) (w : World).

Lemma checkCode_loop_settles w0 source state :
  triple
    (runs w0 (fun evs => evs = []))
    (for_of (testCases state)
       (checkCode_case source state (getHeadlessExecutor (activeLanguage state))))
    (fun _ => runs w0 (fun evs =>
       forallb rewrites_cases evs = true
       /\ forall tc, tc ∈ testCases (replay evs (store w0)) ->
            tc_id tc ∈ (tc_id <$> testCases state) -> settled (tc_status tc)))
    (fun _ => runs w0 (fun evs => forallb rewrites_cases evs = true)).
Proof.
  pose (Phi := fun (done : list TestCaseState) (skip : option string) evs =>
    forallb rewrites_cases evs = true
    /\ forall tc, tc ∈ testCases (replay evs (store w0)) ->
         tc_id tc ∈ (tc_id <$> done) -> Some (tc_id tc) <> skip ->
         settled (tc_status tc)).
  eapply triple_weaken;
    [apply (triple_for_of _ _ (fun done => runs w0 (Phi done None))
              (fun _ => runs w0 (fun evs => forallb rewrites_cases evs = true)))
    | | | done].
  2: { intros w (e & evs & -> & ->). exists e, []. split; [done|]. split; [done|].
       intros tc _ Hin. by apply elem_of_nil in Hin. }
  2: { intros [] w (e & evs & -> & Hrw & Hdone). exists e, evs. split; [done|].
       split; [done|]. intros tc Hin Hid. by apply Hdone. }
  intros done x rest _. unfold checkCode_case.
  eapply triple_bind.
  { apply (runs_dispatch w0 _ (Phi done (Some (tc_id x)))).
    intros evs [Hrw Hdone]. split; [by rewrite forallb_snoc, Hrw|].
    intros tc. rewrite replay_snoc. simpl. intros Hin Hid Hskip.
    apply elem_of_setTestStatus in Hin as [(Heq & _) | [Hne Hin]]; [congruence|].
    by apply Hdone. }
  intros []. eapply triple_bind.
  { apply (runs_getHeadlessExecutor w0 (Phi done (Some (tc_id x)))
             (fun evs => forallb rewrites_cases evs = true)).
    - intros evs c r [Hrw Hdone]. split; [by rewrite forallb_snoc, Hrw|].
      intros tc. rewrite replay_snoc. apply Hdone.
    - intros evs c err [Hrw _]. by rewrite forallb_snoc, Hrw. }
  intros result. eapply triple_bind.
  { apply (runs_dispatch w0 _ (Phi done (Some (tc_id x)))).
    intros evs [Hrw Hdone]. split; [by rewrite forallb_snoc, Hrw|].
    intros tc. rewrite replay_snoc. simpl. intros Hin Hid Hskip.
    apply elem_of_setResults in Hin as [Heq | [Hne Hin]]; [congruence|].
    by apply Hdone. }
  intros []. apply runs_processResult.
  intros evs status feedback [Hrw Hdone] _ Hset.
  split; [by rewrite forallb_snoc, Hrw|].
  intros tc. rewrite replay_snoc. simpl. intros Hin Hid _.
  apply elem_of_setTestStatus in Hin as [(_ & Hst & _) | [Hne Hin]]; [by rewrite Hst|].
  apply Hdone; [done| |congruence].
  rewrite fmap_app in Hid. apply elem_of_app in Hid as [Hid|Hid]; [done|].
  apply list_elem_of_singleton in Hid. done.
Qed.

(** X9. When [checkCode] is done, every test case of the store has
    passed or failed: none is left idle or being checked, whatever the
    engine returned or threw. *)
Theorem checkCode_settles_every_case source w :
  Forall (fun tc => settled (tc_status tc)) (testCases (store (checkCode source w).2)).
Proof.
  unfold checkCode, bind. simpl.
  pose proof (checkCode_loop_settles w source (store w) w (runs_start w _ eq_refl))
    as Hloop.
  unfold try_catch. destruct (for_of _ _ w) as [[[]|err] w1].
  - destruct Hloop as (e & evs & -> & Hrw & Hdone). apply Forall_forall.
    intros tc Hin. apply Hdone; [done|].
    rewrite <- (replay_ids evs) by done. by apply list_elem_of_fmap_2.
  - pose proof (fail_all_spec w (testCases (store w))
                  (fun evs => forallb rewrites_cases evs = true)
                  (fun _ _ => False)) as Hfail.
    specialize (Hfail ltac:(by intros evs ev Hrw Hev _; cbv beta in *;
                               rewrite forallb_snoc, Hrw, Hev) w1 Hloop).
    destruct (fail_all _ w1) as [[[]|err'] w2]; [|done].
    destruct Hfail as (e & evs & -> & Hrw & Hall). apply Forall_forall.
    intros tc Hin. destruct (Hall tc Hin) as [Hst _]; [|by right].
    rewrite <- (replay_ids evs) by done. by apply list_elem_of_fmap_2.
Qed.

(** X10. If a call of the engine is rejected during [checkCode], every
    test case of the store ends failed with the message of an unexpected
    error, those that had passed before the rejected call among them. *)
Theorem rejected_call_fails_every_case source w :
  existsb is_rejected (new_events w (checkCode source w).2) = true ->
  Forall failed_unexpectedly (testCases (store (checkCode source w).2)).
Proof.
  destruct (checkCode_contains_rejections source w) as (e & evs & -> & Hrej).
  simpl. rewrite new_events_after. intros Hev. apply Forall_forall. by apply Hrej.
Qed.

Lemma replay_session evs state :
  forallb keeps_session evs = true ->
  code (replay evs state) = code state
  /\ activeLanguage (replay evs state) = activeLanguage state
  /\ currentProblem (replay evs state) = currentProblem state
  /\ userProgress (replay evs state) = userProgress state.
Proof.
  revert state. induction evs as [|ev evs IH]; intros state Hall; [done|].
  simpl in Hall. apply andb_true_iff in Hall as [Hev Hall].
  change (replay (ev :: evs) state) with (replay evs (reduce ev state)).
  destruct (IH (reduce ev state) Hall) as (-> & -> & -> & ->). by destruct ev.
Qed.

Lemma rewrites_keep_session evs :
  forallb rewrites_cases evs = true -> forallb keeps_session evs = true.
Proof.
  rewrite !forallb_forall. intros Hall ev Hin. specialize (Hall ev Hin). by destruct ev.
Qed.

(** X11. [checkCode] writes status, feedback and result of the test
    cases only: the test cases keep their number, order, identifier,
    description, standard input and expected output, and the code, the
    language, the problem and the progress of the store are unchanged. *)
Theorem checkCode_writes_verdicts_only source w :
  let state := store w in
  let state' := store (checkCode source w).2 in
  Forall2 same_case (testCases state) (testCases state')
  /\ code state' = code state
  /\ activeLanguage state' = activeLanguage state
  /\ currentProblem state' = currentProblem state
  /\ userProgress state' = userProgress state.
Proof.
  simpl. rewrite checkCode_unfold.
  destruct (oblivious_checkCode_on source (store w) w w eq_refl)
    as (c & e & evs & Hrw & -> & _).
  simpl. split; [by apply replay_same_cases|].
  by apply replay_session, rewrites_keep_session.
Qed.
End Settling.

(** * The calls of [checkCppCode] *)

Section CppCalls.
Context `{Host}.
Implicit Types (evs : list Event) (w : World).

Lemma calls_of_snoc evs ev :
  calls_of (evs ++ [ev])
  = calls_of evs ++ match ev with Call c _ => [c] | _ => [] end.
Proof. unfold calls_of. rewrite omap_app. by destruct ev. Qed.

Lemma checkCppCode_loop_calls w0 source cases before :
  triple
    (runs w0 (fun evs =>
       existsb is_rejected evs = false /\ forallb compile_failed evs = false
       /\ calls_of evs = before))
    (for_of cases (checkCppCode_case source))
    (fun _ => runs w0 (fun evs =>
       existsb is_rejected evs = false /\ forallb compile_failed evs = false
       /\ calls_of evs = before ++ map (run_call source) cases))
    (fun _ => runs w0 (fun evs => existsb is_rejected evs = true)).
Proof.
  pose (Phi := fun (done : list TestCaseState) evs =>
    existsb is_rejected evs = false /\ forallb compile_failed evs = false
    /\ calls_of evs = before ++ map (run_call source) done).
  eapply triple_weaken;
    [apply (triple_for_of _ _ (fun done => runs w0 (Phi done))
              (fun _ => runs w0 (fun evs => existsb is_rejected evs = true)))
    | | done | done].
  2: { intros w (e & evs & -> & Hrej & Hcf & Hcalls). exists e, evs.
       split; [done|]. split_and!; [done..|]. simpl. by rewrite app_nil_r. }
  intros done x rest _. unfold checkCppCode_case.
  assert (forall evs ev,
            is_rejected ev = false -> compile_failed ev = true ->
            match ev with Call _ _ => False | _ => True end ->
            Phi done evs -> Phi done (evs ++ [ev])) as Hother.
  { intros evs ev Hev Hcfev Hnocall (Hrej & Hcf & Hcalls). unfold Phi.
    rewrite existsb_snoc, forallb_snoc, calls_of_snoc, Hrej, Hcf, Hev, Hcalls.
    destruct ev; [done|by rewrite app_nil_r..]. }
  eapply triple_bind.
  { apply (runs_dispatch w0 _ (Phi done)). intros evs HPhi. by apply Hother. }
  intros []. eapply triple_bind.
  { apply (runs_call w0 _ (fun _ => Phi (done ++ [x]))
             (fun evs => existsb is_rejected evs = true)).
    - intros evs r (Hrej & Hcf & Hcalls). unfold Phi.
      rewrite existsb_snoc, forallb_snoc, calls_of_snoc, Hrej, Hcf, Hcalls.
      cbn [is_rejected compile_failed call_code]. rewrite run_source_not_compile.
      split_and!; [done..|]. by rewrite map_app, app_assoc.
    - intros evs err _. rewrite existsb_snoc. simpl. apply orb_true_r. }
  intros result. eapply triple_bind.
  { apply (runs_dispatch w0 _ (Phi (done ++ [x]))). intros evs (Hrej & Hcf & Hcalls).
    unfold Phi.
    rewrite existsb_snoc, forallb_snoc, calls_of_snoc, Hrej, Hcf, Hcalls.
    simpl. by rewrite app_nil_r. }
  intros []. apply runs_processResult.
  intros evs status feedback (Hrej & Hcf & Hcalls) _ _. unfold Phi.
  rewrite existsb_snoc, forallb_snoc, calls_of_snoc, Hrej, Hcf, Hcalls.
  simpl. by rewrite app_nil_r.
Qed.

Lemma checkCppCode_body_calls w0 compile_stdin source cases :
  triple
    (runs w0 (fun evs => evs = []))
    (checkCppCode_body compile_stdin source cases)
    (fun _ => runs w0 (fun evs =>
       calls_of evs
       = compile_call compile_stdin source
         :: (if forallb compile_failed evs then []
             else map (run_call source) cases)))
    (fun _ => runs w0 (fun evs => existsb is_rejected evs = true)).
Proof.
  unfold checkCppCode_body. eapply triple_bind.
  { apply (runs_call w0 _
             (fun r evs =>
                existsb is_rejected evs = false
                /\ forallb compile_failed evs = complete_nonzero r
                /\ calls_of evs = [compile_call compile_stdin source])
             (fun evs => existsb is_rejected evs = true)).
    - intros evs r ->.
      cbn [app existsb forallb compile_failed is_rejected call_code].
      rewrite compile_source_is_compile. by rewrite andb_true_r.
    - by intros evs err ->. }
  intros compileResult. destruct (complete_nonzero compileResult) eqn:Hnz.
  - eapply triple_weaken;
      [apply (mark_all_spec w0 cases fail (Some (compilation_feedback compileResult))
                (fun evs =>
                   forallb compile_failed evs = true
                   /\ calls_of evs = [compile_call compile_stdin source])
                (fun _ => runs w0 (fun evs => existsb is_rejected evs = true)))
      | | | done].
    + intros evs id [Hcf Hcalls]. by rewrite forallb_snoc, calls_of_snoc, Hcf, Hcalls.
    + intros w (e & evs & -> & _ & Hcf & Hcalls). exists e, evs.
      split; [done|]. by rewrite <- Hnz.
    + intros [] w (e & evs & -> & [Hcf Hcalls] & _). exists e, evs.
      split; [done|]. by rewrite Hcf.
  - eapply triple_weaken;
      [apply (checkCppCode_loop_calls w0 source cases
                [compile_call compile_stdin source])
      | | | done].
    + intros w (e & evs & -> & Hrej & Hcf & Hcalls). exists e, evs.
      split; [done|]. split_and!; [done| |done]. by rewrite <- Hnz.
    + intros [] w (e & evs & -> & Hrej & Hcf & Hcalls). exists e, evs.
      split; [done|]. by rewrite Hcf.
Qed.

(** X12. If no call is rejected, the calls of [checkCppCode] are one
    call that compiles the code and, unless the compilation fails, one
    call per test case that runs the code, in the order of the test
    cases and with the standard input of the test case. *)
Theorem checkCppCode_calls source w :
  let evs := new_events w (checkCppCode source w).2 in
  existsb is_rejected evs = false ->
  calls_of evs
  = compile_call None source
    :: (if forallb compile_failed evs then []
        else map (run_call source) (testCases (store w))).
Proof.
  simpl. unfold checkCppCode, bind. simpl.
  pose proof (checkCppCode_body_calls w None source (testCases (store w)) w
                (runs_start w _ eq_refl)) as Hbody.
  unfold try_catch. destruct (checkCppCode_body _ _ _ w) as [[[]|err] w1].
  - destruct Hbody as (e & evs & -> & Hcalls). simpl. by rewrite new_events_after.
  - pose proof (fail_all_spec w (testCases (store w))
                  (fun evs => existsb is_rejected evs = true)
                  (fun _ _ => False)) as Hfail.
    specialize (Hfail ltac:(by intros evs ev Hrej _ _; cbv beta in *;
                               rewrite existsb_snoc, Hrej) w1 Hbody).
    destruct (fail_all _ w1) as [[[]|err'] w2]; [|done].
    destruct Hfail as (e & evs & -> & Hrej & _). simpl.
    rewrite new_events_after. congruence.
Qed.
End CppCalls.

(** * White space around the output *)

Section WhiteSpace.

Lemma append_nil_l (b : string) : "" +:+ b = b.
Proof. reflexivity. Qed.

Lemma append_cons (c : ascii) (a b : string) : String c a +:+ b = String c (a +:+ b).
Proof. reflexivity. Qed.

Lemma append_nil_r (a : string) : a +:+ "" = a.
Proof. induction a as [|x a IH]; [done|]. by rewrite append_cons, IH. Qed.

Lemma append_assoc_string (a b c : string) : (a +:+ b) +:+ c = a +:+ (b +:+ c).
Proof. induction a as [|x a IH]; [done|]. by rewrite !append_cons, IH. Qed.

Lemma trimStart_white_prefix pre s :
  all_white_space pre = true -> trimStart (pre +:+ s) = trimStart s.
Proof.
  induction pre as [|c pre IH]; [done|]. simpl.
  intros [Hc Hpre]%andb_true_iff. rewrite Hc. auto.
Qed.

Lemma trimStart_all_white s : all_white_space s = true -> trimStart s = "".
Proof.
  induction s as [|c s IH]; simpl; [done|].
  intros [Hc Hs]%andb_true_iff. rewrite Hc. auto.
Qed.

Lemma trimEnd_snoc_white s c :
  is_white_space c = true -> trimEnd (s +:+ String c "") = trimEnd s.
Proof.
  intros Hc. induction s as [|a s IH].
  - rewrite ?append_nil_l. simpl. by rewrite Hc.
  - rewrite ?append_cons. simpl. by rewrite IH.
Qed.

Lemma trimEnd_white_suffix s suf :
  all_white_space suf = true -> trimEnd (s +:+ suf) = trimEnd s.
Proof.
  revert s. induction suf as [|c suf IH]; intros s.
  - intros _. by rewrite append_nil_r.
  - simpl. intros [Hc Hsuf]%andb_true_iff.
    change (String c suf) with (String c "" +:+ suf).
    rewrite <- append_assoc_string, IH by done. by apply trimEnd_snoc_white.
Qed.

Lemma trim_white_space_around pre s suf :
  all_white_space pre = true -> all_white_space suf = true ->
  trim (pre +:+ s +:+ suf) = trim s.
Proof.
  intros Hpre Hsuf. unfold trim. rewrite trimStart_white_prefix by done.
  induction s as [|a s IH].
  - rewrite ?append_nil_l. by rewrite trimStart_all_white.
  - rewrite ?append_cons. simpl. destruct (is_white_space a); [done|].
    rewrite <- ?append_cons. by apply trimEnd_white_suffix.
Qed.

Lemma statuses_setTestStatus id status feedback state :
  tc_status <$> testCases (setTestStatus id status feedback state)
  = (fun tc => if decide (tc_id tc = id) then status else tc_status tc)
      <$> testCases state.
Proof.
  rewrite testCases_setTestStatus. rewrite <- list_fmap_compose.
  apply list_fmap_ext. intros i tc _. simpl. by destruct (decide _).
Qed.

Context `{Host}.

Lemma statuses_dispatch id status feedback w :
  tc_status <$> testCases (store (dispatch (SetTestStatus id status feedback) w).2)
  = (fun tc => if decide (tc_id tc = id) then status else tc_status tc)
      <$> testCases (store w).
Proof. apply statuses_setTestStatus. Qed.

(** X13. White space before and after the standard output of a run does
    not change which test cases pass: the verdict on a completed result
    is the verdict on the result with such white space added to its
    standard output. *)
Theorem verdict_ignores_white_space_around testCase r r' pre suf w :
  all_white_space pre = true -> all_white_space suf = true ->
  stdout r' = pre +:+ stdout r +:+ suf ->
  exitCode r' = exitCode r ->
  tc_status <$> testCases (store (processResult testCase (complete r') w).2)
  = tc_status <$> testCases (store (processResult testCase (complete r) w).2).
Proof.
  intros Hpre Hsuf Hout Hexit. unfold processResult. rewrite Hexit, Hout.
  destruct (negb _); [by rewrite !statuses_dispatch|].
  destruct (tc_expectedOutput testCase) as [[|c e]|]; [done| |done].
  rewrite trim_white_space_around by done.
  destruct (String.eqb _ _); [done|]. by rewrite !statuses_dispatch.
Qed.
End WhiteSpace.

(** * [runCode] *)

Section RunningCode.
Context `{Host}.
Implicit Types (w : World).

Lemma headlessRunCode_last_call language source stdin state :
  triple
    (fun w => store w = state)
    (headlessRunCode language source stdin)
    (fun r w => store w = state
                /\ exists c, last (trace w) = Some (Call c (Returned r)))
    (fun err w => store w = state
                  /\ exists c, last (trace w) = Some (Call c (Rejected err))).
Proof.
  apply triple_headlessRunCode. intros w o e Hstore _. simpl.
  destruct o; (split; [done|]); eexists; apply last_snoc.
Qed.

(** The executor returns the result of its last call, and throws the
    error of the call that was rejected; it leaves the store alone. *)
Lemma getHeadlessExecutor_last_call language source stdin state :
  triple
    (fun w => store w = state)
    (getHeadlessExecutor language source stdin)
    (fun r w => store w = state
                /\ exists c, last (trace w) = Some (Call c (Returned r)))
    (fun err w => store w = state
                  /\ exists c, last (trace w) = Some (Call c (Rejected err))).
Proof.
  unfold getHeadlessExecutor. destruct (needsCompilation _).
  - eapply triple_bind; [apply headlessRunCode_last_call|].
    intros compileResult. destruct (complete_nonzero _).
    + by apply triple_ret.
    + eapply triple_weaken;
        [apply (headlessRunCode_last_call _ _ _ state)| |done|done].
      by intros w [? _].
  - eapply triple_bind; [apply headlessRunCode_last_call|].
    intros result. destruct (_ && _).
    + eapply triple_weaken;
        [apply (headlessRunCode_last_call _ _ _ state)| |done|done].
      by intros w [? _].
    + by apply triple_ret.
Qed.

(** X14. [runCode] completes normally and leaves the store as it is. Its
    output is decided by the last call of the engine: the standard
    output of a completed result, or its standard error if the output is
    empty; a fixed message for a result that is not completed; and the
    error after [Error: ] if the call was rejected. *)
Theorem runCode_output w :
  exists out,
    (runCode w).1 = Normal out
    /\ store (runCode w).2 = store w
    /\ exists c o,
         last (trace (runCode w).2) = Some (Call c o)
         /\ out = match o with
                  | Returned (complete r) => output_of r
                  | Returned _ => "Error: Could not complete execution"
                  | Rejected err => "Error: " +:+ err
                  end.
Proof.
  unfold runCode, bind. simpl.
  pose proof (getHeadlessExecutor_last_call (activeLanguage (store w))
                (code (store w)) "" (store w) w eq_refl) as Hexec.
  unfold try_catch, bind.
  destruct (getHeadlessExecutor _ _ _ w) as [[result|err] w1];
    destruct Hexec as (Hstore & c & Hlast).
  - destruct result as [r| |]; simpl; eauto 8.
  - simpl. eauto 8.
Qed.
End RunningCode.

(** * [checkCode] on the hidden element *)

Section Abandoned.
Context `{Host}.
Implicit Types (evs : list Event) (w : World).

Lemma RunElement_checkCode_loop w0 source :
  NoDup (tc_id <$> testCases (store w0)) ->
  triple
    (runs w0 (fun evs => evs = []))
    (for_of (testCases (store w0)) (RunElement.checkCode_case source))
    (fun _ => runs w0 (fun evs =>
       Forall (fun tc => settled (tc_status tc)) (testCases (replay evs (store w0)))))
    (fun _ => runs w0 (fun evs =>
       exists k tc,
         testCases (replay evs (store w0)) !! k = Some tc
         /\ tc_status tc = checking
         /\ progressed (testCases (store w0)) k (S k)
              (testCases (replay evs (store w0))))).
Proof.
  intros Hnodup.
  pose (now := fun evs => testCases (replay evs (store w0))).
  pose (Phi := fun k j evs => progressed (testCases (store w0)) k j (now evs)).
  pose (Stuck := fun evs =>
    exists k tc, now evs !! k = Some tc /\ tc_status tc = checking
                 /\ progressed (testCases (store w0)) k (S k) (now evs)).
  eapply triple_weaken;
    [apply (triple_for_of _ _
              (fun done => runs w0 (Phi (length done) (length done)))
              (fun _ => runs w0 Stuck))
    | | | done].
  2: { intros w (e & evs & -> & ->). exists e, []. split; [done|].
       split_and!; [done| |done]. intros i a Hi. simpl in Hi. lia. }
  2: { intros [] w (e & evs & -> & Hids & Hsettled & _). exists e, evs.
       split; [done|]. apply Forall_lookup. intros i tc Hi.
       apply (Hsettled i); [|done]. apply lookup_lt_Some in Hi.
       apply (f_equal length) in Hids. rewrite !length_fmap in Hids.
       unfold now in *. lia. }
  intros done x rest Hsplit.
  assert (testCases (store w0) !! length done = Some x) as Hx.
  { rewrite Hsplit. by apply list_lookup_middle. }
  set (k := length done).
  unfold RunElement.checkCode_case. eapply triple_bind.
  { apply (runs_dispatch w0 _ (fun evs =>
             Phi k (S k) evs
             /\ exists tc, now evs !! k = Some tc /\ tc_status tc = checking)).
    intros evs Hprog. unfold Phi, now in *. rewrite replay_snoc.
    cbn [reduce]. rewrite testCases_setTestStatus. split.
    - by apply (progressed_rewrite _ _ k x (with_status checking None)),
        progressed_next.
    - destruct Hprog as (Hids & _ & Hrest).
      rewrite (lookup_rewrite_at (testCases (store w0)) _ k x) by done.
      rewrite decide_True by done. rewrite Hrest by done.
      subst k. rewrite Hx. simpl. eauto. }
  intros []. eapply triple_bind.
  { apply (runs_call w0 _ (fun _ => Phi k (S k)) Stuck).
    - intros evs r [Hprog _]. unfold Phi, now in *. by rewrite replay_snoc.
    - intros evs err (Hprog & tc & Htc & Hst). exists k, tc.
      unfold Phi, now in *. by rewrite replay_snoc. }
  intros result. eapply triple_bind.
  { apply (runs_dispatch w0 _ (Phi k (S k))). intros evs Hprog.
    unfold Phi, now in *. rewrite replay_snoc. cbn [reduce].
    rewrite testCases_setResults.
    by apply (progressed_rewrite _ _ k x (with_result result)). }
  intros []. apply runs_processResult.
  intros evs status feedback Hprog _ Hset.
  unfold Phi, now in *. rewrite length_app, replay_snoc. simpl.
  rewrite Nat.add_1_r.
  by apply (progressed_settle _ _ k x (with_status status feedback)).
Qed.

(** X15. On the hidden element, with distinct identifiers: if
    [checkCode] throws, the test case in flight is left in the state
    [checking], the test cases before it have settled, and the test
    cases after it are as they were, never checked; if it completes
    normally, every test case has settled. *)
Theorem RunElement_checkCode_abandons_queue source w :
  NoDup (tc_id <$> testCases (store w)) ->
  let run := RunElement.checkCode source w in
  match run.1 with
  | Normal _ => Forall (fun tc => settled (tc_status tc)) (testCases (store run.2))
  | Thrown _ =>
      exists k tc,
        testCases (store run.2) !! k = Some tc
        /\ tc_status tc = checking
        /\ progressed (testCases (store w)) k (S k) (testCases (store run.2))
  end.
Proof.
  intros Hnodup. simpl. unfold RunElement.checkCode, bind. simpl.
  pose proof (RunElement_checkCode_loop w source Hnodup w (runs_start w _ eq_refl))
    as Hloop.
  unfold try_finally. destruct (for_of _ _ w) as [[[]|err] w1]; simpl.
  - by destruct Hloop as (e & evs & -> & Hall).
  - by destruct Hloop as (e & evs & -> & Hstuck).
Qed.
End Abandoned.

(** * What a submission records *)

Section Recording.
Context `{Host}.
Implicit Types (w : World).

Lemma session_reduce ev state :
  keeps_session ev = true -> session (reduce ev state) = session state.
Proof. by destruct ev. Qed.

Lemma dispatch_keeps_session ev s0 E :
  keeps_session ev = true ->
  triple (fun w => session (store w) = s0) (dispatch ev)
         (fun _ w => session (store w) = s0) E.
Proof.
  intros Hev. apply triple_dispatch. intros w Hs. simpl. by rewrite session_reduce.
Qed.

Lemma draw_keeps_session {A} (f : nat -> A) s0 E :
  triple (fun w => session (store w) = s0) (draw f)
         (fun _ w => session (store w) = s0) E.
Proof. by intros w Hs. Qed.

Lemma checkCode_keeps_session source w :
  (checkCode source w).1 = Normal tt
  /\ session (store (checkCode source w).2) = session (store w).
Proof.
  rewrite checkCode_unfold.
  destruct (oblivious_checkCode_on source (store w) w w eq_refl)
    as (c & e & evs & Hrw & Heq & _).
  pose proof (checkCode_normal source w) as Hnormal.
  rewrite checkCode_unfold, Heq in Hnormal. rewrite Heq. simpl in *.
  split; [done|]. unfold session.
  by destruct (replay_session evs (store w) (rewrites_keep_session evs Hrw))
    as (-> & -> & -> & ->).
Qed.

(** [runTests] ends with the update of the progress of a store that has
    the code, the language, the problem and the progress of the start. *)
Lemma runTests_updates_session w :
  exists checked,
    session (store checked) = session (store w)
    /\ runTests w
       = (Normal tt,
          {| store := updateProblemProgress (toISOString_at (draws checked))
                        (allPassed (testCases (store checked))) (store checked);
             engine := engine checked; draws := S (draws checked);
             trace := trace checked
                      ++ [UpdateProblemProgress (toISOString_at (draws checked))
                            (allPassed (testCases (store checked)))] |}).
Proof.
  unfold runTests. unfold bind at 1. simpl.
  match goal with |- context [bind ?m _] => set (init := m) end.
  assert (triple (fun w' => session (store w') = session (store w)) init
            (fun _ w' => session (store w') = session (store w))
            (fun _ _ => False)) as Hinit.
  { subst init. destruct (testCases (store w)); [|by apply triple_ret].
    destruct (_ ≫= _) as [templates|].
    - apply (triple_for_of _ _ (fun _ w' => session (store w') = session (store w))).
      intros done x rest _. eapply triple_bind; [apply draw_keeps_session|].
      intros id. by apply dispatch_keeps_session.
    - eapply triple_bind; [apply draw_keeps_session|].
      intros id. by apply dispatch_keeps_session. }
  specialize (Hinit w eq_refl).
  unfold bind at 1. destruct (init w) as [[[]|err] w1]; [|done].
  unfold try_catch. unfold bind at 1.
  pose proof (triple_for_of (testCases (store w))
                (fun testCase => dispatch (SetTestStatus (tc_id testCase) checking None))
                (fun _ w' => session (store w') = session (store w))
                (fun _ _ => False)
                (fun _ x _ _ =>
                   dispatch_keeps_session (SetTestStatus (tc_id x) checking None)
                     _ _ eq_refl) w1 Hinit) as Hmark.
  destruct (for_of _ _ w1) as [[[]|err] w2]; [|done].
  unfold bind at 1. destruct (checkCode_keeps_session (code (store w)) w2)
    as [Hnormal Hcheck].
  destruct (checkCode _ w2) as [[[]|err] w3]; [|done].
  exists w3. simpl in *. split; [congruence|done].
Qed.

(** X16. With a current problem, [runTests] ends with a record of the
    problem whose entry for the active language holds the code that was
    submitted and whether all test cases passed. *)
Theorem runTests_records_submission w problem :
  currentProblem (store w) = Some problem ->
  exists now,
    (progress ← getProgressForProblem (p_id problem) (store (runTests w).2);
     languages progress !! activeLanguage (store w))
    = Some {| lp_code := code (store w);
              lp_passed := allPassed (testCases (store (runTests w).2));
              lp_lastAttempted := now |}.
Proof.
  intros Hcur. destruct (runTests_updates_session w) as (checked & Hsession & ->).
  injection Hsession as Hcode Hlang Hproblem Hprogress.
  exists (toISOString_at (draws checked)). simpl.
  rewrite testCases_updateProblemProgress.
  rewrite Hcur in Hproblem.
  destruct (getProgressForProblem (p_id problem) (store checked)) as [old|] eqn:Hold.
  - rewrite (updateProblemProgress_existing _ _ _ _ _ Hproblem Hold). simpl.
    by rewrite Hlang, lookup_insert_eq, Hcode.
  - rewrite (updateProblemProgress_fresh _ _ _ _ Hproblem Hold). simpl.
    by rewrite Hlang, lookup_singleton_eq, Hcode.
Qed.
End Recording.

(** * The calls of [checkCode] *)

Section BareCalls.
Context `{Host}.
Implicit Types (evs : list Event) (w : World).

Lemma getHeadlessExecutor_bare_calls w0 language source stdin :
  triple
    (runs w0 (fun evs => Forall (bare_call language) (calls_of evs)))
    (getHeadlessExecutor language source stdin)
    (fun _ => runs w0 (fun evs => Forall (bare_call language) (calls_of evs)))
    (fun _ => runs w0 (fun evs => Forall (bare_call language) (calls_of evs))).
Proof.
  assert (forall s, triple
            (runs w0 (fun evs => Forall (bare_call language) (calls_of evs)))
            (headlessRunCode language s None)
            (fun _ => runs w0 (fun evs => Forall (bare_call language) (calls_of evs)))
            (fun _ => runs w0 (fun evs => Forall (bare_call language) (calls_of evs))))
    as Hrun.
  { intros s.
    apply (runs_call w0 _
             (fun _ evs => Forall (bare_call language) (calls_of evs))
             (fun evs => Forall (bare_call language) (calls_of evs)));
      intros evs r Hbare; rewrite calls_of_snoc; apply Forall_app;
      (split; [done|]); by apply Forall_singleton. }
  unfold getHeadlessExecutor. destruct (needsCompilation _).
  - eapply triple_bind; [apply Hrun|]. intros compileResult.
    destruct (complete_nonzero _); [by apply triple_ret | apply Hrun].
  - eapply triple_bind; [apply Hrun|]. intros result.
    destruct (_ && _); [apply Hrun | by apply triple_ret].
Qed.

(** X17. Every call that [checkCode] makes to the engine is for the
    runtime of the active language and carries no standard input,
    whatever the standard input of the test cases. *)
Theorem checkCode_calls_without_stdin source w :
  Forall (bare_call (activeLanguage (store w)))
    (calls_of (new_events w (checkCode source w).2)).
Proof.
  set (language := activeLanguage (store w)).
  pose (Phi := fun evs => Forall (bare_call language) (calls_of evs)).
  assert (forall evs ev, match ev with Call _ _ => False | _ => True end ->
                         Phi evs -> Phi (evs ++ [ev])) as Hother.
  { intros evs ev Hev HPhi. unfold Phi. rewrite calls_of_snoc.
    destruct ev; [done|by rewrite app_nil_r..]. }
  assert (triple (runs w Phi)
            (for_of (testCases (store w))
               (checkCode_case source (store w) (getHeadlessExecutor language)))
            (fun _ => runs w Phi) (fun _ => runs w Phi)) as Hloop.
  { apply (triple_for_of _ _ (fun _ => runs w Phi) (fun _ => runs w Phi)).
    intros done x rest _. unfold checkCode_case.
    eapply triple_bind; [by apply runs_dispatch; intros evs; apply Hother|].
    intros []. eapply triple_bind; [apply getHeadlessExecutor_bare_calls|].
    intros result.
    eapply triple_bind; [by apply runs_dispatch; intros evs; apply Hother|].
    intros []. apply runs_processResult. intros evs status feedback HPhi _ _.
    by apply Hother. }
  specialize (Hloop w (runs_start w Phi (Forall_nil_2 _))).
  unfold checkCode, bind. simpl. fold language. unfold try_catch.
  destruct (for_of _ _ w) as [[[]|err] w1].
  - destruct Hloop as (e & evs & -> & HPhi). simpl. by rewrite new_events_after.
  - pose proof (mark_all_spec w (testCases (store w)) fail
                  (Some (feedback_of msg_unexpected)) Phi (fun _ _ => False)
                  (fun evs id =>
                     Hother evs
                       (SetTestStatus id fail (Some (feedback_of msg_unexpected))) I)
                  w1 Hloop) as Hfail.
    unfold fail_all.
    destruct (for_of _ _ w1) as [[[]|err'] w2]; [|done].
    destruct Hfail as (e & evs & -> & HPhi & _). simpl.
    by rewrite new_events_after.
Qed.
End BareCalls.

(** * The code that is run for a test case *)

Section Rewriting.
Context `{Host}.

Lemma substring_append_skip (a b : string) n :
  substring (String.length a) n (a +:+ b) = substring 0 n b.
Proof. induction a as [|x a IH]; [done|]. by rewrite append_cons. Qed.

Lemma includes_append_prefix (a b m : string) :
  m <> "" -> String.prefix m b = true -> includes (a +:+ b) m = true.
Proof.
  intros Hm Hprefix. unfold includes.
  destruct (String.index 0 m (a +:+ b)) eqn:Hindex; [done|]. exfalso.
  apply (String.index_correct3 0 (String.length a)) in Hindex; [|done|lia].
  apply Hindex. rewrite substring_append_skip. by apply String.prefix_correct.
Qed.

Lemma includes_after_fallback (replaced call m : string) :
  m <> "" -> String.prefix m call = true ->
  includes (if negb (includes replaced m)
            then replaced +:+ nl +:+ nl +:+ call else replaced) m = true.
Proof.
  intros Hm Hprefix. destruct (includes replaced m) eqn:Hin; [done|]. simpl.
  rewrite <- !append_assoc_string. by apply includes_append_prefix.
Qed.

(** X18. For the problem [two-sum] and a test case whose description
    holds the input, the code that [checkCode] runs in Python holds a
    call [print(twoSum(], and the code it runs in JavaScript a call
    [console.log(twoSum(], whatever the submitted code. *)
Theorem codeToRun_two_sum_prints source problem testCase m :
  p_id problem = "two-sum" ->
  String_match re_twoSum_input (tc_description testCase) = Some m ->
  includes (codeToRun source (Some problem) python testCase) "print(twoSum(" = true
  /\ includes (codeToRun source (Some problem) quickjs testCase)
       "console.log(twoSum(" = true.
Proof.
  intros Hid Hmatch. unfold codeToRun. rewrite Hid, Hmatch.
  cbn [String.eqb Ascii.eqb Bool.eqb].
  split; by apply includes_after_fallback.
Qed.

(** X19. For the problem [valid-parentheses] and a test case whose
    description holds the input, the code that [checkCode] runs in
    Python holds a call [print(isValid(], and the code it runs in
    JavaScript a call [console.log(isValid(], whatever the submitted
    code. *)
Theorem codeToRun_valid_parentheses_prints source problem testCase m :
  p_id problem = "valid-parentheses" ->
  String_match re_isValid_input (tc_description testCase) = Some m ->
  includes (codeToRun source (Some problem) python testCase) "print(isValid(" = true
  /\ includes (codeToRun source (Some problem) quickjs testCase)
       "console.log(isValid(" = true.
Proof.
  intros Hid Hmatch. unfold codeToRun. rewrite Hid, Hmatch.
  cbn [String.eqb Ascii.eqb Bool.eqb].
  split; by apply includes_after_fallback.
Qed.
End Rewriting.

(** * The properties above at concrete inputs *)

Lemma write_to_unknown_id_witness :
  setTestStatus "z" pass None store_with_progress = store_with_progress
  /\ setResults "z" (completed "5" "" 0) store_with_progress = store_with_progress.
Proof.
  apply (write_to_unknown_id "z" pass None (completed "5" "" 0) store_with_progress).
  refine (bool_decide_unpack _ _). vm_compute. exact I.
Defined.

Lemma saved_code_after_update_witness :
  loadUserCode "empty" clangpp
    (updateProblemProgress "2025-03-01T00:00:00.000Z" false store_with_progress)
  = Some "main".
Proof.
  apply (saved_code_after_update "2025-03-01T00:00:00.000Z" false
           store_with_progress empty_problem).
  reflexivity.
Defined.

Lemma updateProblemProgress_one_record_witness :
  let state' := updateProblemProgress "2025-03-01T00:00:00.000Z" true
                  store_with_progress in
  NoDup (problemId <$> userProgress state')
  /\ "empty" ∈ (problemId <$> userProgress state').
Proof.
  apply (updateProblemProgress_one_record "2025-03-01T00:00:00.000Z" true
           store_with_progress empty_problem).
  - reflexivity.
  - refine (bool_decide_unpack _ _). vm_compute. exact I.
Defined.

Lemma updateProblemProgress_count_witness :
  getCompletedProblemsCount
    (updateProblemProgress "2025-03-01T00:00:00.000Z" true store_with_progress)
  = getCompletedProblemsCount store_with_progress
    + (if true && negb (recorded_solved "empty" store_with_progress) then 1 else 0).
Proof.
  apply (updateProblemProgress_count "2025-03-01T00:00:00.000Z" true
           store_with_progress empty_problem).
  reflexivity.
Defined.

Lemma switch_language_and_back_witness :
  code (setActiveLanguage clangpp
          (setActiveLanguage python
             (updateProblemProgress "2025-03-01T00:00:00.000Z" false
                store_with_progress)))
  = "main".
Proof.
  apply (switch_language_and_back "2025-03-01T00:00:00.000Z" false
           store_with_progress empty_problem python).
  - reflexivity.
  - discriminate.
Defined.

Lemma setCurrentProblem_fresh_cases_witness :
  let fresh := fun n => "uuid-" +:+ pretty n in
  let cases := testCases (setCurrentProblem fresh small_problem store_with_progress) in
  Forall (fun tc => tc_status tc = idle /\ tc_feedback tc = None /\ tc_result tc = None)
         cases
  /\ NoDup (tc_id <$> cases)
  /\ (fun tc => (tc_description tc, tc_stdin tc, tc_expectedOutput tc)) <$> cases
     = (fun t => (tpl_description t, tpl_stdin t, tpl_expectedOutput t))
         <$> two_templates.
Proof.
  apply (setCurrentProblem_fresh_cases (fun n => "uuid-" +:+ pretty n) small_problem
           store_with_progress two_templates).
  - reflexivity.
  - refine (bool_decide_unpack _ _). vm_compute. exact I.
Defined.

Lemma select_problem_and_back_witness :
  let fresh := fun n => "uuid-" +:+ pretty n in
  code (setCurrentProblem fresh empty_problem
          (setCurrentProblem fresh small_problem
             (updateProblemProgress "2025-03-01T00:00:00.000Z" false
                store_with_progress)))
  = "main".
Proof.
  apply (select_problem_and_back "2025-03-01T00:00:00.000Z" false
           store_with_progress empty_problem small_problem
           (fun n => "uuid-" +:+ pretty n) (fun n => "uuid-" +:+ pretty n)).
  - reflexivity.
  - discriminate.
Defined.

Lemma rejected_call_fails_every_case_witness :
  let host := scripted_host answer_second_rejected in
  let w := @world_of host 0 (store_of python two_cases None) in
  Forall failed_unexpectedly (testCases (store (@checkCode host "print(5)" w).2)).
Proof.
  apply (@rejected_call_fails_every_case (scripted_host answer_second_rejected)
           "print(5)").
  vm_compute. reflexivity.
Defined.

Lemma checkCppCode_calls_witness :
  let host := scripted_host answer_echo in
  let w := @world_of host 0 (store_of clangpp two_cases None) in
  let evs := @new_events host w (@checkCppCode host "main" w).2 in
  calls_of evs
  = compile_call None "main"
    :: (if forallb compile_failed evs then [] else map (run_call "main") two_cases).
Proof.
  apply (@checkCppCode_calls (scripted_host answer_echo) "main").
  vm_compute. reflexivity.
Defined.

Lemma verdict_ignores_white_space_around_witness :
  let host := scripted_host answer_five in
  let testCase := test_case "a" "prints 5" None (Some "5") in
  let w := @world_of host 0 (store_of python [testCase] None) in
  let r := {| res_stdin := ""; stdout := "5"; stderr := ""; tty := "5";
              exitCode := 0 |} in
  let r' := {| res_stdin := ""; stdout := "5" +:+ nl; stderr := ""; tty := "5" +:+ nl;
               exitCode := 0 |} in
  tc_status <$> testCases (store (@processResult host testCase (complete r') w).2)
  = tc_status <$> testCases (store (@processResult host testCase (complete r) w).2).
Proof.
  apply (@verdict_ignores_white_space_around (scripted_host answer_five)
           (test_case "a" "prints 5" None (Some "5"))
           {| res_stdin := ""; stdout := "5"; stderr := ""; tty := "5"; exitCode := 0 |}
           {| res_stdin := ""; stdout := "5" +:+ nl; stderr := ""; tty := "5" +:+ nl;
              exitCode := 0 |}
           "" nl).
  - reflexivity.
  - reflexivity.
  - reflexivity.
  - reflexivity.
Defined.

Lemma RunElement_checkCode_abandons_queue_witness :
  let host := scripted_host answer_second_rejected in
  let w := @world_of host 0 (store_of python two_cases None) in
  let run := @RunElement.checkCode host "print(5)" w in
  match run.1 with
  | Normal _ => Forall (fun tc => settled (tc_status tc)) (testCases (store run.2))
  | Thrown _ =>
      exists k tc,
        testCases (store run.2) !! k = Some tc
        /\ tc_status tc = checking
        /\ progressed (testCases (store w)) k (S k) (testCases (store run.2))
  end.
Proof.
  apply (@RunElement_checkCode_abandons_queue (scripted_host answer_second_rejected)
           "print(5)").
  refine (bool_decide_unpack _ _). vm_compute. exact I.
Defined.

Lemma runTests_records_submission_witness :
  let host := scripted_host answer_echo in
  let w := @world_of host 0 store_with_progress in
  exists now,
    (progress ← getProgressForProblem "empty" (store (@runTests host w).2);
     languages progress !! clangpp)
    = Some {| lp_code := "main";
              lp_passed := allPassed (testCases (store (@runTests host w).2));
              lp_lastAttempted := now |}.
Proof.
  apply (@runTests_records_submission (scripted_host answer_echo)
           (@world_of (scripted_host answer_echo) 0 store_with_progress)
           empty_problem).
  reflexivity.
Defined.

Lemma codeToRun_two_sum_prints_witness :
  let m := ["nums = [2,7,11,15], target = 9"; "2,7,11,15"; "9"] in
  let testCase := test_case "a" "Example 1: nums = [2,7,11,15], target = 9"
                    None (Some "[0, 1]") in
  includes (@codeToRun (matching_host m) "twoSum = None"
              (Some two_sum_problem) python testCase) "print(twoSum(" = true
  /\ includes (@codeToRun (matching_host m) "twoSum = None"
                 (Some two_sum_problem) quickjs testCase) "console.log(twoSum(" = true.
Proof.
  apply (@codeToRun_two_sum_prints
           (matching_host ["nums = [2,7,11,15], target = 9"; "2,7,11,15"; "9"])
           "twoSum = None" two_sum_problem
           (test_case "a" "Example 1: nums = [2,7,11,15], target = 9"
              None (Some "[0, 1]"))
           ["nums = [2,7,11,15], target = 9"; "2,7,11,15"; "9"]);
    reflexivity.
Defined.

Lemma codeToRun_valid_parentheses_prints_witness :
  let m := ["s = Q()Q"; "()"] in
  let testCase := test_case "a" "Example 1: s = Q()Q" None (Some "true") in
  includes (@codeToRun (matching_host m) "isValid = None"
              (Some valid_parentheses_problem) python testCase) "print(isValid(" = true
  /\ includes (@codeToRun (matching_host m) "isValid = None"
                 (Some valid_parentheses_problem) quickjs testCase)
       "console.log(isValid(" = true.
Proof.
  apply (@codeToRun_valid_parentheses_prints (matching_host ["s = Q()Q"; "()"])
           "isValid = None" valid_parentheses_problem
           (test_case "a" "Example 1: s = Q()Q" None (Some "true"))
           ["s = Q()Q"; "()"]);
    reflexivity.
Defined.
